(** * BATCAVE planner: lane allocation and task rewards

    A shallow embedding of the two kernels of the planner and of the glue
    that feeds them:

    - [allocateLanes], the greedy interval layout of the calendar's week
      and day views (client/src/components/calendar/week-view.tsx and the
      day view, which carries a copy of the same function);
    - [calculateXPReward] / [calculateEUReward] and the task store
      [MemStorage] (server/storage.ts), with the PATCH and POST handlers of
      server/routes.ts and the schemas of shared/schema.ts in front of it;
    - the timed / all-day split of the week view.

    JavaScript numbers are IEEE 754 doubles and are modelled by Rocq's
    primitive floats; JavaScript objects used as dictionaries are [gmap]s;
    [Date] values are their millisecond timestamps ([getTime()]). *)

From Stdlib Require Import ZArith Lia Sorted Ascii String Floats.
From stdpp Require Import base option list gmap strings pretty sorting.

Local Open Scope Z_scope.
#[local] Set Warnings "-inexact-float".

(* ===================================================================== *)
(** ** Lane allocator *)
(* ===================================================================== *)

(** [T & { lane: number; maxLanes: number }]: an input item together with
    the two fields the allocator attaches to it. *)
Record Positioned (T : Type) := mkPositioned {
  item : T;
  lane : nat;
  maxLanes : nat;
}.
Arguments mkPositioned {T} _ _ _.
Arguments item {T} _.
Arguments lane {T} _.
Arguments maxLanes {T} _.

(** [60 * 60 * 1000]: the default duration of an item without an end. *)
Definition DEFAULT_DURATION : Z := 60 * 60 * 1000.

(** [let lane = 0; while (usedLanes.includes(lane)) lane++;] with the
    number of remaining iterations made explicit. *)
Fixpoint whileIncludes (fuel : nat) (usedLanes : list nat) (lane : nat) : nat :=
  match fuel with
  | O => lane
  | S fuel' =>
      if decide (lane ∈ usedLanes)
      then whileIncludes fuel' usedLanes (S lane)
      else lane
  end.

(** Each iteration that does not leave the loop consumes a distinct member of
    [usedLanes], so [length usedLanes] iterations, and one more test, always
    suffice; [firstFreeLane_spec] below shows that the loop has left through
    its condition. *)
Definition firstFreeLane (usedLanes : list nat) : nat :=
  whileIncludes (S (length usedLanes)) usedLanes 0.

(** [Math.max(first, ...rest)] on naturals. *)
Definition Math_max (first : nat) (rest : list nat) : nat :=
  foldr Nat.max first rest.

Section LaneAllocator.
(** [T extends { startTime: string; endTime?: string }].  The two
    accessors give the timestamps the code reads off an item:
    [startTime x] is [new Date(x.startTime).getTime()], and [endTime x] is
    [Some (new Date(x.endTime).getTime())] when [x.endTime] is truthy and
    [None] otherwise.  The strings are the ones the views produce from
    stored dates with [toString()] and [toISOString()], so they denote
    dates and the timestamps are integers. *)
Context {T : Type}.
Variable startTime : T → Z.
Variable endTime : T → option Z.

(** [item.endTime ? new Date(item.endTime).getTime()
                  : itemStart + (60 * 60 * 1000)] *)
Definition effectiveEnd (x : T) : Z :=
  match endTime x with
  | Some e => e
  | None => startTime x + DEFAULT_DURATION
  end.

(** The predicate of [positioned.filter(existing => ...)]:
    [itemStart < existingEnd && itemEnd > existingStart]. *)
Definition conflictsWith (x : T) (existing : Positioned T) : Prop :=
  startTime x < effectiveEnd (item existing)
  ∧ effectiveEnd x > startTime (item existing).

#[global] Instance conflictsWith_dec x existing :
  Decision (conflictsWith x existing).
Proof. unfold conflictsWith. apply _. Defined.

(** [conflict.maxLanes = maxLanes] *)
Definition setMaxLanes (m : nat) (p : Positioned T) : Positioned T :=
  mkPositioned (item p) (lane p) m.

(** The body of [sortedItems.forEach((item) => ...)].  [conflicts] holds
    references to the objects stored in [positioned], so the assignment in
    [conflicts.forEach] changes exactly the elements of [positioned] that
    pass the filter.  The week view writes the conflicts before it pushes
    the new item and the day view after; the new item is not among the
    conflicts, so both orders give the same array. *)
Definition placeItem (positioned : list (Positioned T)) (x : T)
  : list (Positioned T) :=
  let conflicts := filter (conflictsWith x) positioned in
  let usedLanes := lane <$> conflicts in
  let lane := firstFreeLane usedLanes in
  let maxLanes := Math_max (lane + 1) (maxLanes <$> conflicts) in
  ((λ existing, if decide (conflictsWith x existing)
                then setMaxLanes maxLanes existing
                else existing) <$> positioned)
  ++ [mkPositioned x lane maxLanes].

(** [[...items].sort((a, b) => a.start - b.start)]: [Array.prototype.sort]
    is stable, so the result is the stable sort by start time whatever
    algorithm the engine runs; insertion from the right is one. *)
Fixpoint insertByStart (x : T) (l : list T) : list T :=
  match l with
  | [] => [x]
  | y :: l' =>
      if decide (startTime x - startTime y ≤ 0)
      then x :: y :: l'
      else y :: insertByStart x l'
  end.

Definition sortedItems (items : list T) : list T :=
  foldr insertByStart [] items.

Definition allocateLanes (items : list T) : list (Positioned T) :=
  foldl placeItem [] (sortedItems items).

(** The overlap test of the data model, between two items:
    [a.start < b.end_effective] and [b.start < a.end_effective]. *)
Definition overlap (a b : T) : Prop :=
  startTime a < effectiveEnd b ∧ startTime b < effectiveEnd a.

(** The invariant of the loop: every placed item sits on the first lane
    that is free among the conflicts placed before it. *)
Definition FirstFit (l : list (Positioned T)) : Prop :=
  ∀ j b, l !! j = Some b →
    lane b
    = firstFreeLane (lane <$> filter (conflictsWith (item b)) (take j l)).

End LaneAllocator.

(** The [TimedItem] of the calendar views (without its [data] back
    pointer). *)
Inductive ItemType := event | task.

#[global] Instance ItemType_eq_dec : EqDecision ItemType.
Proof. solve_decision. Defined.

Record TimedItem := mkTimedItem {
  ti_id : string;
  ti_type : ItemType;
  ti_startTime : Z;
  ti_endTime : option Z;
}.

Definition minutes (n : Z) : Z := n * 60 * 1000.

Definition allocateTimed : list TimedItem → list (Positioned TimedItem) :=
  allocateLanes ti_startTime ti_endTime.

Definition itemA := mkTimedItem "A" event (minutes 0) (Some (minutes 60)).
Definition itemB := mkTimedItem "B" event (minutes 30) (Some (minutes 90)).
Definition itemC := mkTimedItem "C" event (minutes 80) (Some (minutes 140)).
Definition itemD := mkTimedItem "D" event (minutes 85) (Some (minutes 100)).


(* ===================================================================== *)
(** ** JavaScript numbers and property lookup *)
(* ===================================================================== *)

(** A non-negative or negative integer as a double (exact below 2^53). *)
Definition float_of_Z (n : Z) : float :=
  if n <? 0 then (- of_uint63 (Uint63.of_Z (- n)))%float
  else of_uint63 (Uint63.of_Z n).

(** [Math.round]: NaN, the infinities, the zeros and integral numbers are
    returned as they are; otherwise the result is [⌊x + 1/2⌋], computed
    exactly on the mantissa and exponent of [x] (a tie goes to +∞), and it is
    [-0] when [x] is in [[-0.5, 0)]. *)
Definition Math_round (x : float) : float :=
  match Prim2SF x with
  | S754_finite s m e =>
      if 0 <=? e then x
      else
        let mant := if s then Z.neg m else Z.pos m in
        let n := (mant + 2 ^ (- e - 1)) `div` 2 ^ (- e) in
        if n =? 0 then (if s then neg_zero else zero)
        else float_of_Z n
  | _ => x
  end.

(** What reading a property of an object literal with numeric fields can
    give: a number, [undefined], or something inherited from
    [Object.prototype] (a function, or the prototype object itself for
    [__proto__]). *)
Inductive JSValue :=
  | JSUndefined
  | JSNumber (n : float)
  | JSInherited (name : string).

(** The properties every object literal inherits from [Object.prototype]. *)
Definition Object_prototype_properties : list string :=
  [ "constructor"; "__proto__"; "hasOwnProperty"; "isPrototypeOf";
    "propertyIsEnumerable"; "toLocaleString"; "toString"; "valueOf";
    "__defineGetter__"; "__defineSetter__"; "__lookupGetter__";
    "__lookupSetter__" ]%string.

(** [table[key]]: own properties first, then the prototype chain. *)
Definition getProperty (table : gmap string float) (key : string) : JSValue :=
  match table !! key with
  | Some n => JSNumber n
  | None =>
      if decide (key ∈ Object_prototype_properties)
      then JSInherited key
      else JSUndefined
  end.

(** [ToBoolean]: [undefined], [NaN], [0] and [-0] are falsy; functions and
    objects are truthy. *)
Definition ToBoolean (v : JSValue) : bool :=
  match v with
  | JSUndefined => false
  | JSNumber n => negb (is_zero n || is_nan n)
  | JSInherited _ => true
  end.

(** [ToNumber]: [undefined] is NaN; a function or a plain object converts
    through its string form, which is not a numeric literal, so NaN too. *)
Definition ToNumber (v : JSValue) : float :=
  match v with
  | JSNumber n => n
  | JSUndefined => nan
  | JSInherited _ => nan
  end.

(** [v || d] *)
Definition js_or (v d : JSValue) : JSValue :=
  if ToBoolean v then v else d.

(* ===================================================================== *)
(** ** Reward calculator (MemStorage.calculateXPReward / calculateEUReward) *)
(* ===================================================================== *)

Definition basePriorityMultipliers : gmap string float :=
  list_to_map
    [ ("low", 10); ("medium", 15); ("high", 25); ("urgent", 40) ]%float.

Definition calculateXPReward (priority : string) (hours : float) : float :=
  let baseXP :=
    js_or (getProperty basePriorityMultipliers priority) (JSNumber 15) in
  Math_round (ToNumber baseXP * hours)%float.

Definition domainMultipliers : gmap string float :=
  list_to_map
    [ ("academic", 1.0); ("fitness", 2.5); ("creative", 0.8);
      ("social", 1.2); ("maintenance", 0.6) ]%float.

Definition calculateEUReward (domain : string) (hours : float) : float :=
  let multiplier :=
    js_or (getProperty domainMultipliers domain) (JSNumber 1.0) in
  Math_round ((hours * ToNumber multiplier) * 10)%float.

(* ===================================================================== *)
(** ** Tasks and the in-memory store (shared/schema.ts, server/storage.ts) *)
(* ===================================================================== *)

(** A valid [Date], as its [getTime()]. *)
Definition Date := Z.

(** A row of the [tasks] table.  [numeric] columns are strings, nullable
    columns are options, the two rewards are JavaScript numbers. *)
Record Task := mkTask {
  id : string;
  userId : string;
  title : string;
  description : option string;
  domain : string;
  priority : string;
  estimatedHours : string;
  actualHours : option string;
  xpReward : float;
  euReward : float;
  isCompleted : bool;
  completedAt : option Date;
  dueDate : option Date;
  createdAt : Date;
  updatedAt : Date;
}.

(** [z.infer<typeof insertTaskSchema>]: the columns without [id],
    [xpReward], [euReward], [isCompleted], [completedAt], [createdAt] and
    [updatedAt].  An optional key is an [option]; an optional key of a
    nullable column is an option of an option ([Some None] is [null]). *)
Record InsertTask := mkInsertTask {
  it_userId : string;
  it_title : string;
  it_description : option (option string);
  it_domain : string;
  it_priority : option string;
  it_estimatedHours : option string;
  it_actualHours : option (option string);
  it_dueDate : option (option Date);
}.

(** [z.infer<typeof updateTaskSchema>]: the columns without [id], [userId],
    [xpReward], [euReward], [createdAt] and [updatedAt], all optional. *)
Record UpdateTask := mkUpdateTask {
  ut_title : option string;
  ut_description : option (option string);
  ut_domain : option string;
  ut_priority : option string;
  ut_estimatedHours : option string;
  ut_actualHours : option (option string);
  ut_isCompleted : option bool;
  ut_completedAt : option (option Date);
  ut_dueDate : option (option Date);
}.

(** [x ?? d] on an optional, nullable key. *)
Definition nullish {A} (x : option (option A)) (d : option A) : option A :=
  match x with
  | Some (Some a) => Some a
  | _ => d
  end.

(** [MemStorage.createTask]; [randomUUID()] and [new Date()] are the two
    arguments [newId] and [now]. *)
Definition createTask (tasks : gmap string Task) (newId : string) (now : Date)
    (insertTask : InsertTask) : gmap string Task * Task :=
  let task :=
    {| id := newId;
       userId := it_userId insertTask;
       title := it_title insertTask;
       description := nullish (it_description insertTask) None;
       domain := it_domain insertTask;
       priority := default "medium"%string (it_priority insertTask);
       estimatedHours := default "1.0"%string (it_estimatedHours insertTask);
       actualHours := None;
       xpReward := 0;
       euReward := 0;
       isCompleted := false;
       completedAt := None;
       dueDate := nullish (it_dueDate insertTask) None;
       createdAt := now;
       updatedAt := now |} in
  (<[newId := task]> tasks, task).

(** The object [calculatedRewards] when it is not left empty. *)
Record CalculatedRewards := mkCalculatedRewards {
  cr_xpReward : float;
  cr_euReward : float;
  cr_actualHours : string;
}.

Section Storage.
(** The builtin [parseFloat] on strings. *)
Variable parseFloat : string → float.

(** [updateData.actualHours || existingTask.estimatedHours]: the left
    operand is falsy when the key is absent, [null] or the empty string. *)
Definition actualHoursOr (supplied : option (option string))
    (fallback : string) : string :=
  match supplied with
  | Some (Some s) => if decide (s = ""%string) then fallback else s
  | _ => fallback
  end.

(** The block
    [let calculatedRewards = {};
     if (updateData.isCompleted && !existingTask.isCompleted) { ... }].
    [actualHours] is a string on both sides of [||], so the [typeof] test
    always takes the [parseFloat] branch. *)
Definition calculateRewards (existingTask : Task) (updateData : UpdateTask)
  : option CalculatedRewards :=
  if default false (ut_isCompleted updateData)
     && negb (isCompleted existingTask)
  then
    let actualHours :=
      actualHoursOr (ut_actualHours updateData) (estimatedHours existingTask) in
    let hoursAsNumber := parseFloat actualHours in
    Some {| cr_xpReward := calculateXPReward (priority existingTask) hoursAsNumber;
            cr_euReward := calculateEUReward (domain existingTask) hoursAsNumber;
            cr_actualHours := actualHours |}
  else None.

(** [{ ...existingTask, ...updateData, ...calculatedRewards,
       updatedAt: new Date() }], key by key: a key of [updateData] replaces
    the stored value when it is present ([null] included), and the handler
    deletes the keys whose value is [undefined] before it calls. *)
Definition mergeTask (existingTask : Task) (updateData : UpdateTask)
    (calculatedRewards : option CalculatedRewards) (now : Date) : Task :=
  {| id := id existingTask;
     userId := userId existingTask;
     title := default (title existingTask) (ut_title updateData);
     description :=
       default (description existingTask) (ut_description updateData);
     domain := default (domain existingTask) (ut_domain updateData);
     priority := default (priority existingTask) (ut_priority updateData);
     estimatedHours :=
       default (estimatedHours existingTask) (ut_estimatedHours updateData);
     actualHours :=
       match calculatedRewards with
       | Some r => Some (cr_actualHours r)
       | None =>
           default (actualHours existingTask) (ut_actualHours updateData)
       end;
     xpReward :=
       match calculatedRewards with
       | Some r => cr_xpReward r
       | None => xpReward existingTask
       end;
     euReward :=
       match calculatedRewards with
       | Some r => cr_euReward r
       | None => euReward existingTask
       end;
     isCompleted :=
       default (isCompleted existingTask) (ut_isCompleted updateData);
     completedAt :=
       default (completedAt existingTask) (ut_completedAt updateData);
     dueDate := default (dueDate existingTask) (ut_dueDate updateData);
     createdAt := createdAt existingTask;
     updatedAt := now |}.

(** [MemStorage.updateTask]: the new store and the returned task
    ([None] is [undefined]). *)
Definition updateTask (tasks : gmap string Task) (now : Date)
    (taskId : string) (updateData : UpdateTask)
  : gmap string Task * option Task :=
  match tasks !! taskId with
  | None => (tasks, None)
  | Some existingTask =>
      let calculatedRewards := calculateRewards existingTask updateData in
      let updatedTask :=
        mergeTask existingTask updateData calculatedRewards now in
      (<[taskId := updatedTask]> tasks, Some updatedTask)
  end.
End Storage.

(* ===================================================================== *)
(** ** Request bodies and schemas (shared/schema.ts) *)
(* ===================================================================== *)

(** A JSON value of a request body; arrays and nested objects are never
    accepted by the task schemas, so their contents are not kept. *)
Inductive JSON :=
  | JNull
  | JBool (b : bool)
  | JNum (n : float)
  | JStr (s : string)
  | JCompound.

(** [z.string()], [z.boolean()], [.nullable()]: [None] is a [ZodError]. *)
Definition z_string (v : JSON) : option string :=
  match v with JStr s => Some s | _ => None end.

Definition z_boolean (v : JSON) : option bool :=
  match v with JBool b => Some b | _ => None end.

Definition z_nullable {A} (schema : JSON → option A) (v : JSON)
  : option (option A) :=
  match v with
  | JNull => Some None
  | _ => Some <$> schema v
  end.

(** A key of an object schema: a required key must be there, an
    [.optional()] one may be absent.  Keys that the schema does not name are
    never read: a zod object schema strips them. *)
Definition requiredKey {A} (schema : JSON → option A)
    (body : gmap string JSON) (key : string) : option A :=
  body !! key ≫= schema.

Definition optionalKey {A} (schema : JSON → option A)
    (body : gmap string JSON) (key : string) : option (option A) :=
  match body !! key with
  | None => Some None
  | Some v => Some <$> schema v
  end.

(** [z.infer<typeof clientUpdateTaskSchema>]: [updateTaskSchema] with the
    two hour fields as numbers, [dueDate] as a string, and without
    [completedAt]. *)
Record ClientUpdateTask := mkClientUpdateTask {
  cu_title : option string;
  cu_description : option (option string);
  cu_domain : option string;
  cu_priority : option string;
  cu_estimatedHours : option float;
  cu_actualHours : option float;
  cu_isCompleted : option bool;
  cu_dueDate : option string;
}.

(** [z.infer<typeof clientTaskSchema>]: [insertTaskSchema] with
    [estimatedHours] as a number, [dueDate] as a string, and without
    [userId]. *)
Record ClientTask := mkClientTask {
  ct_title : string;
  ct_description : option (option string);
  ct_domain : string;
  ct_priority : option string;
  ct_estimatedHours : float;
  ct_actualHours : option (option string);
  ct_dueDate : option string;
}.

(** A [Date] object as the routes build it with [new Date(string)]:
    [None] is the Invalid Date. *)
Definition JSDate := option Date.

(** The object [updateData] that the PATCH handler hands to
    [updateTaskSchema.parse], after its [undefined] keys are deleted. *)
Record UpdateData := mkUpdateData {
  ud_title : option string;
  ud_description : option (option string);
  ud_domain : option string;
  ud_priority : option string;
  ud_estimatedHours : option string;
  ud_actualHours : option string;
  ud_isCompleted : option bool;
  ud_dueDate : option JSDate;
  ud_completedAt : option JSDate;
}.

(** The object [taskData] that the POST handler hands to
    [insertTaskSchema.parse]; its [dueDate] is a [Date] or [null]. *)
Record TaskData := mkTaskData {
  td_userId : string;
  td_title : string;
  td_description : option (option string);
  td_domain : string;
  td_priority : option string;
  td_estimatedHours : string;
  td_actualHours : option (option string);
  td_dueDate : option JSDate;
}.

(** [z.date()] rejects the Invalid Date. *)
Definition z_date (d : JSDate) : option Date := d.

(** A number is truthy unless it is [0], [-0] or [NaN]; a string unless it
    is empty. *)
Definition truthyNumber (n : float) : bool := negb (is_zero n || is_nan n).
Definition truthyString (s : string) : bool := negb (bool_decide (s = ""%string)).

(** The outcome of a handler: the status and what [res.json] is given (the
    [details] of a [ZodError] are not kept). *)
Inductive ResponseBody :=
  | ErrorBody (error : string) (message : option string)
  | TaskBody (t : Task).

Record Response := mkResponse {
  status : nat;
  body : ResponseBody;
}.

Definition errorResponse (code : nat) (error : string) : Response :=
  mkResponse code (ErrorBody error None).

Definition uncompleteResponse : Response :=
  mkResponse 400
    (ErrorBody "Cannot un-complete a task"
       (Some "Tasks cannot be marked as incomplete once completed to maintain reward integrity."%string)).

Section Routes.
(** Builtins and library checks the handlers go through:
    [parseFloat], [Number.prototype.toString], [new Date(string)] (its
    timestamp, or [None] for the Invalid Date), and zod's
    [.multipleOf(step)] test. *)
Variable parseFloat : string → float.
Variable Number_toString : float → string.
Variable Date_parse : string → JSDate.
Variable multipleOf : float → float → bool.

(** [z.number().min(lo).max(hi).multipleOf(step)] *)
Definition z_number (lo hi step : float) (v : JSON) : option float :=
  match v with
  | JNum n =>
      if negb (is_nan n) && (lo <=? n)%float && (n <=? hi)%float
         && multipleOf n step
      then Some n else None
  | _ => None
  end.

Definition clientUpdateTaskSchema_parse (req_body : gmap string JSON)
  : option ClientUpdateTask :=
  title ← optionalKey z_string req_body "title";
  description ← optionalKey (z_nullable z_string) req_body "description";
  domain ← optionalKey z_string req_body "domain";
  priority ← optionalKey z_string req_body "priority";
  estimatedHours ←
    optionalKey (z_number 0.5 24 0.5) req_body "estimatedHours";
  actualHours ← optionalKey (z_number 0.1 100 0.1) req_body "actualHours";
  isCompleted ← optionalKey z_boolean req_body "isCompleted";
  dueDate ← optionalKey z_string req_body "dueDate";
  Some (mkClientUpdateTask title description domain priority
          estimatedHours actualHours isCompleted dueDate).

Definition clientTaskSchema_parse (req_body : gmap string JSON)
  : option ClientTask :=
  title ← requiredKey z_string req_body "title";
  description ← optionalKey (z_nullable z_string) req_body "description";
  domain ← requiredKey z_string req_body "domain";
  priority ← optionalKey z_string req_body "priority";
  estimatedHours ←
    requiredKey (z_number 0.5 24 0.5) req_body "estimatedHours";
  actualHours ← optionalKey (z_nullable z_string) req_body "actualHours";
  dueDate ← optionalKey z_string req_body "dueDate";
  Some (mkClientTask title description domain priority estimatedHours
          actualHours dueDate).

(** [updateTaskSchema.parse(updateData)]: every value already has the
    type of its column, except that a date may be invalid. *)
Definition updateTaskSchema_parse (updateData : UpdateData)
  : option UpdateTask :=
  dueDate ← match ud_dueDate updateData with
            | None => Some None
            | Some d => (λ x, Some (Some x)) <$> z_date d
            end;
  completedAt ← match ud_completedAt updateData with
                | None => Some None
                | Some d => (λ x, Some (Some x)) <$> z_date d
                end;
  Some {| ut_title := ud_title updateData;
          ut_description := ud_description updateData;
          ut_domain := ud_domain updateData;
          ut_priority := ud_priority updateData;
          ut_estimatedHours := ud_estimatedHours updateData;
          ut_actualHours := Some <$> ud_actualHours updateData;
          ut_isCompleted := ud_isCompleted updateData;
          ut_completedAt := completedAt;
          ut_dueDate := dueDate |}.

(** [insertTaskSchema.parse(taskData)] *)
Definition insertTaskSchema_parse (taskData : TaskData)
  : option InsertTask :=
  dueDate ← match td_dueDate taskData with
            | None => Some None
            | Some d => Some <$> z_date d
            end;
  Some {| it_userId := td_userId taskData;
          it_title := td_title taskData;
          it_description := td_description taskData;
          it_domain := td_domain taskData;
          it_priority := td_priority taskData;
          it_estimatedHours := Some (td_estimatedHours taskData);
          it_actualHours := td_actualHours taskData;
          it_dueDate := Some dueDate |}.

(** The "Convert to server format" block of the PATCH handler, with the
    deletion of the [undefined] keys. *)
Definition toUpdateData (now : Date) (validatedUpdate : ClientUpdateTask)
  : UpdateData :=
  {| ud_title := cu_title validatedUpdate;
     ud_description := cu_description validatedUpdate;
     ud_domain := cu_domain validatedUpdate;
     ud_priority := cu_priority validatedUpdate;
     ud_estimatedHours :=
       match cu_estimatedHours validatedUpdate with
       | Some n => if truthyNumber n then Some (Number_toString n) else None
       | None => None
       end;
     ud_actualHours :=
       match cu_actualHours validatedUpdate with
       | Some n => if truthyNumber n then Some (Number_toString n) else None
       | None => None
       end;
     ud_isCompleted := cu_isCompleted validatedUpdate;
     ud_dueDate :=
       match cu_dueDate validatedUpdate with
       | Some s => if truthyString s then Some (Date_parse s) else None
       | None => None
       end;
     ud_completedAt :=
       if default false (cu_isCompleted validatedUpdate)
       then Some (Some now) else None |}.

(** [req.session?.userId] followed by [if (!userId)]. *)
Definition authenticated (session : option string) : option string :=
  match session with
  | Some u => if truthyString u then Some u else None
  | None => None
  end.

(** [app.patch("/api/tasks/:id", ...)]: the store after the request and
    the response. *)
Definition patchTask (tasks : gmap string Task) (now : Date)
    (session : option string) (taskId : string)
    (req_body : gmap string JSON) : gmap string Task * Response :=
  match authenticated session with
  | None => (tasks, errorResponse 401 "Unauthorized")
  | Some uid =>
      match tasks !! taskId with
      | None => (tasks, errorResponse 404 "Task not found")
      | Some existingTask =>
          if negb (bool_decide (userId existingTask = uid))
          then (tasks, errorResponse 404 "Task not found")
          else
            match clientUpdateTaskSchema_parse req_body with
            | None => (tasks, errorResponse 400 "Invalid update data")
            | Some validatedUpdate =>
                if bool_decide (cu_isCompleted validatedUpdate = Some false)
                   && isCompleted existingTask
                then (tasks, uncompleteResponse)
                else
                  match updateTaskSchema_parse
                          (toUpdateData now validatedUpdate) with
                  | None => (tasks, errorResponse 400 "Invalid update data")
                  | Some updateData =>
                      match updateTask parseFloat tasks now taskId
                              updateData with
                      | (tasks', None) =>
                          (tasks', errorResponse 404 "Task not found")
                      | (tasks', Some updatedTask) =>
                          (tasks', mkResponse 200 (TaskBody updatedTask))
                      end
                  end
            end
      end
  end.

(** [app.post("/api/tasks", ...)] *)
Definition postTask (tasks : gmap string Task) (newId : string)
    (now : Date) (session : option string) (req_body : gmap string JSON)
  : gmap string Task * Response :=
  match authenticated session with
  | None => (tasks, errorResponse 401 "Unauthorized")
  | Some uid =>
      match clientTaskSchema_parse req_body with
      | None => (tasks, errorResponse 400 "Invalid task data")
      | Some validatedData =>
          let taskData :=
            {| td_userId := uid;
               td_title := ct_title validatedData;
               td_description := ct_description validatedData;
               td_domain := ct_domain validatedData;
               td_priority := ct_priority validatedData;
               td_estimatedHours :=
                 Number_toString (ct_estimatedHours validatedData);
               td_actualHours := ct_actualHours validatedData;
               td_dueDate :=
                 match ct_dueDate validatedData with
                 | Some s =>
                     if truthyString s then Some (Date_parse s) else None
                 | None => None
                 end |} in
          match insertTaskSchema_parse taskData with
          | None => (tasks, errorResponse 400 "Invalid task data")
          | Some insertTask =>
              let '(tasks', created) :=
                createTask tasks newId now insertTask in
              (tasks', mkResponse 201 (TaskBody created))
          end
      end
  end.
End Routes.

(* ===================================================================== *)
(** ** The timed / all-day split of the week view *)
(* ===================================================================== *)

Definition START_HOUR : Z := 6.
Definition END_HOUR : Z := 23.

(** The columns of an event that the week view reads. *)
Record Event := mkEvent {
  ev_id : string;
  ev_startTime : Date;
  ev_endTime : Date;
}.

Section WeekView.
(** Local time: [localOffset t] is what the browser's time zone adds to
    the UTC timestamp [t], in milliseconds. *)
Variable localOffset : Z → Z.

Definition localTime (d : Date) : Z := d + localOffset d.

(** [date.getHours()] *)
Definition getHours (d : Date) : Z := (localTime d `div` 3600000) `mod` 24.

(** [date.toDateString()], as the number of the local calendar day: two
    dates have the same string exactly when they fall on the same day. *)
Definition toDateString (d : Date) : Z := localTime d `div` 86400000.

Definition dayEvents (date : Date) (events : list Event) : list Event :=
  filter (λ ev, bool_decide (toDateString (ev_startTime ev) = toDateString date))
    events.

Definition isDueOn (date : Date) (t : Task) : bool :=
  match dueDate t with
  | None => false
  | Some taskDate =>
      bool_decide (toDateString taskDate = toDateString date)
  end.

Definition dayTasks (date : Date) (tasks : list Task) : list Task :=
  filter (λ t, isDueOn date t) tasks.

Definition isTimedTask (t : Task) : bool :=
  match dueDate t with
  | None => false
  | Some taskDate =>
      let hours := getHours taskDate in
      bool_decide (hours >= START_HOUR) && bool_decide (hours <= END_HOUR)
  end.

Definition isAllDayTask (t : Task) : bool :=
  match dueDate t with
  | None => true
  | Some taskDate =>
      let hours := getHours taskDate in
      bool_decide (hours < START_HOUR) || bool_decide (hours > END_HOUR)
  end.

Definition timedTasks (date : Date) (tasks : list Task) : list Task :=
  filter (λ t, isTimedTask t) (dayTasks date tasks).

Definition allDayTasks (date : Date) (tasks : list Task) : list Task :=
  filter (λ t, isAllDayTask t) (dayTasks date tasks).

(** The items carry the timestamps that their date strings denote.  The
    week view writes the strings with [toString()], whose resolution is the
    second: the timestamps are exact for dates on full seconds (and for
    dates that arrive as ISO strings); the day view writes
    [toISOString()], which keeps the milliseconds. *)
Definition eventItem (ev : Event) : TimedItem :=
  mkTimedItem (ev_id ev) event (ev_startTime ev) (Some (ev_endTime ev)).

(** A timed task has a due date; the default only fills the type. *)
Definition taskItem (t : Task) : TimedItem :=
  mkTimedItem (id t) task (default 0 (dueDate t)) None.

Definition timedItems (date : Date) (tasks : list Task)
    (events : list Event) : list TimedItem :=
  (eventItem <$> dayEvents date events)
  ++ (taskItem <$> timedTasks date tasks).

(** [allocateLanes(timedItems)] for one day of the week. *)
Definition timedItemsWithLanes (date : Date) (tasks : list Task)
    (events : list Event) : list (Positioned TimedItem) :=
  allocateTimed (timedItems date tasks events).
End WeekView.

(* ===================================================================== *)
(** ** Instances of the builtins, to run the handlers *)
(* ===================================================================== *)

(** The integer part [⌊x⌋] of a finite double (0 for the others). *)
Definition floor_of_float (x : float) : Z :=
  match Prim2SF x with
  | S754_finite s m e =>
      let mant := if s then Z.neg m else Z.pos m in
      if 0 <=? e then mant * 2 ^ e else mant `div` 2 ^ (- e)
  | _ => 0
  end.

Definition digit_of_ascii (c : ascii) : option Z :=
  let n := Z.of_nat (nat_of_ascii c) in
  if (48 <=? n) && (n <=? 57) then Some (n - 48) else None.

(** Reads a run of decimal digits: the number read on top of [acc], how
    many digits there were, and what follows them. *)
Fixpoint readDigits (acc : Z) (count : nat) (s : string) : Z * nat * string :=
  match s with
  | String c s' =>
      match digit_of_ascii c with
      | Some d => readDigits (10 * acc + d) (S count) s'
      | None => (acc, count, s)
      end
  | EmptyString => (acc, count, s)
  end.

(** [parseFloat] on unsigned decimal literals such as ["2"], ["1.0"] or
    ["7.5"] (up to fifteen digits, where the quotient of the two exact
    doubles is the correctly rounded value); NaN when the string does not
    start with one. *)
Definition parseFloat_decimal (s : string) : float :=
  let '(whole, n1, rest) := readDigits 0 0 s in
  match rest with
  | String "."%char rest' =>
      let '(all, n2, _) := readDigits whole 0 rest' in
      if decide (n1 + n2 = 0)%nat then nan
      else (float_of_Z all / float_of_Z (10 ^ Z.of_nat n2))%float
  | _ => if decide (n1 = 0)%nat then nan else float_of_Z whole
  end.

(** [Number.prototype.toString] on non-negative numbers with at most one
    decimal, the only ones that the two hour fields let through. *)
Definition Number_toString_tenths (x : float) : string :=
  let k := floor_of_float (Math_round (x * 10)%float) in
  if decide (k `mod` 10 = 0) then pretty (k `div` 10)
  else (pretty (k `div` 10) +:+ "." +:+ pretty (k `mod` 10))%string.

(** zod's [.multipleOf], on numbers and steps with at most one decimal. *)
Definition multipleOf_tenths (x step : float) : bool :=
  let k := floor_of_float (Math_round (x * 10)%float) in
  let s := floor_of_float (Math_round (step * 10)%float) in
  (float_of_Z k / 10 =? x)%float && bool_decide (k `mod` s = 0).

(** [new Date(string)] on one ISO string; every other string of the
    examples is not a date. *)
Definition Date_parse_sample (s : string) : JSDate :=
  if decide (s = "2025-01-01T10:00:00.000Z"%string)
  then Some 1735725600000 else None.

Definition patchTask_sample :=
  patchTask parseFloat_decimal Number_toString_tenths Date_parse_sample
    multipleOf_tenths.

Definition postTask_sample :=
  postTask Number_toString_tenths Date_parse_sample multipleOf_tenths.

(** A stored task of user ["bruce"]: two estimated hours of high-priority
    fitness work, not yet completed. *)
Definition sampleTask : Task :=
  {| id := "t1"; userId := "bruce"; title := "Train";
     description := None; domain := "fitness"; priority := "high";
     estimatedHours := "2.0"; actualHours := None;
     xpReward := 0; euReward := 0; isCompleted := false;
     completedAt := None; dueDate := Some 1735725600000;
     createdAt := 1735000000000; updatedAt := 1735000000000 |}.

(** The same task after its completion with three actual hours. *)
Definition sampleDone : Task :=
  {| id := "t1"; userId := "bruce"; title := "Train";
     description := None; domain := "fitness"; priority := "high";
     estimatedHours := "2.0"; actualHours := Some "3"%string;
     xpReward := 75; euReward := 75; isCompleted := true;
     completedAt := Some 1735800000000; dueDate := Some 1735725600000;
     createdAt := 1735000000000; updatedAt := 1735800000000 |}.

Definition sampleStore : gmap string Task := {[ "t1"%string := sampleTask ]}.
Definition sampleDoneStore : gmap string Task := {[ "t1"%string := sampleDone ]}.

(** What the examples read off a task: whether it is completed, and its
    two rewards. *)
Definition status_of_rewards (t : Task) : bool * float * float :=
  (isCompleted t, xpReward t, euReward t).

(** [{ isCompleted: true }] *)
Definition completeUpdate : UpdateTask :=
  mkUpdateTask None None None None None None (Some true) None None.

(* ===================================================================== *)
(** ** Invariants of the placement loop *)
(* ===================================================================== *)

(** The counts stay within the array: a lane is below the count of its
    item, and no count exceeds the number of placed items. *)
Definition CountsInRange {T} (l : list (Positioned T)) : Prop :=
  ∀ p, p ∈ l → (lane p < maxLanes p ≤ length l)%nat.

(** An item that meets no other placed item is on lane 0 with count 1. *)
Definition AloneIsWide {T} (startTime : T → Z) (endTime : T → option Z)
    (l : list (Positioned T)) : Prop :=
  ∀ j b, l !! j = Some b →
    (∀ i a, i ≠ j → l !! i = Some a →
            ¬ overlap startTime endTime (item a) (item b)) →
    lane b = 0%nat ∧ maxLanes b = 1%nat.

(** When every item met so far conflicts with every other, the array is
    a staircase: position [j] holds lane [j], and every count is the
    length. *)
Definition Staircase {T} (l : list (Positioned T)) : Prop :=
  ∀ j p, l !! j = Some p → lane p = j ∧ maxLanes p = length l.

(** Two items of [xs] are neighbours when their effective intervals
    overlap, and in one overlap cluster when a chain of neighbours joins
    them. *)
Definition directlyOverlap {T} (startTime : T → Z) (endTime : T → option Z)
    (xs : list T) (a b : T) : Prop :=
  a ∈ xs ∧ b ∈ xs ∧ overlap startTime endTime a b.

Definition sameCluster {T} (startTime : T → Z) (endTime : T → option Z)
    (xs : list T) : T → T → Prop :=
  rtc (directlyOverlap startTime endTime xs).

(** The count of an item is above the lane of each of its neighbours. *)
Definition CoversNeighbours {T} (startTime : T → Z) (endTime : T → option Z)
    (l : list (Positioned T)) : Prop :=
  ∀ i j a b, i ≠ j → l !! i = Some a → l !! j = Some b →
    overlap startTime endTime (item a) (item b) →
    (lane a < maxLanes b)%nat.

(** The count of an item is one more than a lane that is in use in the
    cluster of the item. *)
Definition CountInUse {T} (startTime : T → Z) (endTime : T → option Z)
    (l : list (Positioned T)) : Prop :=
  ∀ b, b ∈ l →
    ∃ c, c ∈ l
      ∧ sameCluster startTime endTime (item <$> l) (item b) (item c)
      ∧ maxLanes b = S (lane c).

(* ===================================================================== *)
(** ** The rest of the store and of the task handlers *)
(* ===================================================================== *)

(** [MemStorage.getTask] *)
Definition getTask (tasks : gmap string Task) (taskId : string)
  : option Task :=
  tasks !! taskId.

(** [MemStorage.deleteTask]: [Map.prototype.delete] answers whether the
    key was there. *)
Definition deleteTask (tasks : gmap string Task) (taskId : string)
  : gmap string Task * bool :=
  (delete taskId tasks, bool_decide (is_Some (tasks !! taskId))).

(** What the DELETE handler answers: 204 without a body, or an error. *)
Inductive DeleteResponse :=
  | NoContent
  | DeleteRefused (r : Response).

(** [app.delete("/api/tasks/:id", ...)] *)
Definition deleteTaskRoute (tasks : gmap string Task)
    (session : option string) (taskId : string)
  : gmap string Task * DeleteResponse :=
  match authenticated session with
  | None => (tasks, DeleteRefused (errorResponse 401 "Unauthorized"))
  | Some uid =>
      match getTask tasks taskId with
      | None => (tasks, DeleteRefused (errorResponse 404 "Task not found"))
      | Some existingTask =>
          if negb (bool_decide (userId existingTask = uid))
          then (tasks, DeleteRefused (errorResponse 404 "Task not found"))
          else
            let '(tasks', deleted) := deleteTask tasks taskId in
            if negb deleted
            then (tasks', DeleteRefused (errorResponse 404 "Task not found"))
            else (tasks', NoContent)
      end
  end.

(** A request to one of the three handlers that write to the store, with
    the values that the handler draws while it runs ([randomUUID()],
    [new Date()]). *)
Inductive Request :=
  | POST_task (newId : string) (now : Date) (session : option string)
      (req_body : gmap string JSON)
  | PATCH_task (now : Date) (session : option string) (taskId : string)
      (req_body : gmap string JSON)
  | DELETE_task (session : option string) (taskId : string).

Section Server.
Variable parseFloat : string → float.
Variable Number_toString : float → string.
Variable Date_parse : string → JSDate.
Variable multipleOf : float → float → bool.

(** The store after one request. *)
Definition handle (tasks : gmap string Task) (r : Request)
  : gmap string Task :=
  match r with
  | POST_task newId now session req_body =>
      (postTask Number_toString Date_parse multipleOf
         tasks newId now session req_body).1
  | PATCH_task now session taskId req_body =>
      (patchTask parseFloat Number_toString Date_parse multipleOf
         tasks now session taskId req_body).1
  | DELETE_task session taskId =>
      (deleteTaskRoute tasks session taskId).1
  end.

(** The store after a sequence of requests, starting from the empty
    [MemStorage]. *)
Definition serve (requests : list Request) : gmap string Task :=
  foldl handle ∅ requests.
End Server.

(** What holds of every task the server stores: it sits under its own id;
    while it is incomplete it has no rewards and no completion time; once it
    is completed it has a completion time and actual hours. *)
Definition TaskInvariant (key : string) (t : Task) : Prop :=
  id t = key
  ∧ (isCompleted t = false →
     xpReward t = 0%float ∧ euReward t = 0%float ∧ completedAt t = None)
  ∧ (isCompleted t = true →
     is_Some (completedAt t) ∧ is_Some (actualHours t)).

Definition StoreInvariant (tasks : gmap string Task) : Prop :=
  ∀ key t, tasks !! key = Some t → TaskInvariant key t.

(* ===================================================================== *)
(** ** The day view (its own timed / all-day split and hour labels) *)
(* ===================================================================== *)

(** The columns of an event that the day view reads. *)
Record DayEvent := mkDayEvent {
  de_id : string;
  de_startTime : Date;
  de_endTime : Date;
  de_allDay : bool;
}.

Section DayView.
Variable localOffset : Z → Z.

(** [dayStart] and [dayEnd] are the displayed date after
    [setHours(0, 0, 0, 0)] and [setHours(23, 59, 59, 999)]. *)
Variable dayStart dayEnd : Date.

Definition intersectsDay (ev : DayEvent) : bool :=
  (bool_decide (de_startTime ev <= dayEnd)
   && bool_decide (de_endTime ev >= dayStart))
  || de_allDay ev.

Definition dv_dayEvents (events : list DayEvent) : list DayEvent :=
  filter (λ ev, intersectsDay ev) events.

Definition dv_timedEvents (events : list DayEvent) : list DayEvent :=
  filter (λ ev, negb (de_allDay ev)) (dv_dayEvents events).

Definition dv_allDayEvents (events : list DayEvent) : list DayEvent :=
  filter (λ ev, de_allDay ev) (dv_dayEvents events).

Definition isDayTask (t : Task) : bool :=
  match dueDate t with
  | None => true
  | Some taskDate =>
      bool_decide (taskDate >= dayStart) && bool_decide (taskDate <= dayEnd)
  end.

Definition dv_allTasks (tasks : list Task) : list Task :=
  filter (λ t, isDayTask t) tasks.

(** The day view joins the two hour tests with [||]. *)
Definition dv_isTimedTask (t : Task) : bool :=
  match dueDate t with
  | None => false
  | Some taskTime =>
      bool_decide (getHours localOffset taskTime >= START_HOUR)
      || bool_decide (getHours localOffset taskTime <= END_HOUR)
  end.

Definition dv_isAllDayTask (t : Task) : bool :=
  match dueDate t with
  | None => true
  | Some taskTime =>
      bool_decide (getHours localOffset taskTime < START_HOUR)
      || bool_decide (getHours localOffset taskTime > END_HOUR)
  end.

Definition dv_timedTasks (tasks : list Task) : list Task :=
  filter (λ t, dv_isTimedTask t) (dv_allTasks tasks).

Definition dv_allDayTasks (tasks : list Task) : list Task :=
  filter (λ t, dv_isAllDayTask t) (dv_allTasks tasks).

Definition dayEventItem (ev : DayEvent) : TimedItem :=
  mkTimedItem (de_id ev) event (de_startTime ev) (Some (de_endTime ev)).

Definition dv_timedItems (tasks : list Task) (events : list DayEvent)
  : list TimedItem :=
  (dayEventItem <$> dv_timedEvents events)
  ++ (taskItem <$> dv_timedTasks tasks).

(** [allocateLanes(timedItems)] of the day view. *)
Definition dv_positionedItems (tasks : list Task) (events : list DayEvent)
  : list (Positioned TimedItem) :=
  allocateTimed (dv_timedItems tasks events).
End DayView.

(** [formatHour], on the whole hours of the timeline. *)
Definition formatHour (hour : Z) : string :=
  let period := if bool_decide (hour >= 12) then "PM" else "AM" in
  let displayHour :=
    if bool_decide (hour > 12) then hour - 12
    else if bool_decide (hour = 0) then 12 else hour in
  (pretty displayHour +:+ " " +:+ period)%string.

(** More sample data: an item far from the chain A, B, C; a task due at
    03:00 UTC on the day of [sampleTask]; an all-day event of another
    month. *)
Definition itemE := mkTimedItem "E" event (minutes 300) (Some (minutes 330)).

Definition earlyTask : Task :=
  {| id := "t2"; userId := "bruce"; title := "Stake-out";
     description := None; domain := "social"; priority := "low";
     estimatedHours := "1.0"; actualHours := None;
     xpReward := 0; euReward := 0; isCompleted := false;
     completedAt := None; dueDate := Some 1735700400000;
     createdAt := 1735000000000; updatedAt := 1735000000000 |}.

Definition galaEvent : DayEvent :=
  mkDayEvent "e1" 1738368000000 1738454400000 true.

Definition serve_sample :=
  serve parseFloat_decimal Number_toString_tenths Date_parse_sample
    multipleOf_tenths.

(* ===================================================================== *)
(** * Properties of the lane allocator *)
(* ===================================================================== *)

(** ** The lane search *)

Lemma filter_le_shrinks (used : list nat) (lane : nat) :
  lane ∈ used →
  (length (filter (λ n, S lane ≤ n)%nat used)
   < length (filter (λ n, lane ≤ n)%nat used))%nat.
Proof.
  induction used as [|u used IH]; intros Hin.
  - by apply elem_of_nil in Hin.
  - rewrite !filter_cons.
    destruct (decide (u = lane)) as [->|Hne].
    + destruct (decide (S lane ≤ lane)%nat); [lia|].
      destruct (decide (lane ≤ lane)%nat); [|lia].
      simpl. pose proof (length_filter (λ n, S lane ≤ n)%nat used) as H1.
      assert (length (filter (λ n, S lane ≤ n)%nat used)
              ≤ length (filter (λ n, lane ≤ n)%nat used))%nat; [|lia].
      clear. induction used as [|v used IH]; [done|].
      rewrite !filter_cons.
      repeat case_decide; simpl; lia.
    + apply elem_of_cons in Hin as [->|Hin]; [done|].
      specialize (IH Hin).
      repeat case_decide; simpl; lia.
Qed.

Lemma whileIncludes_spec (fuel : nat) (used : list nat) (lane : nat) :
  (length (filter (λ n, lane ≤ n)%nat used) < fuel)%nat →
  let r := whileIncludes fuel used lane in
  (lane ≤ r)%nat ∧ (r ∉ used) ∧ ∀ n, (lane ≤ n < r)%nat → n ∈ used.
Proof.
  revert lane. induction fuel as [|fuel IH]; intros lane Hfuel; [lia|].
  simpl. destruct (decide (lane ∈ used)) as [Hin|Hout].
  - pose proof (filter_le_shrinks used lane Hin) as Hlt.
    destruct (IH (S lane)) as (Hle & Hfree & Hbelow); [lia|].
    split_and!; [lia|done|].
    intros n Hn. destruct (decide (n = lane)) as [->|]; [done|].
    apply Hbelow. lia.
  - split_and!; [lia|done|]. intros n Hn. lia.
Qed.

(** The loop leaves with the least lane that is not in [usedLanes]. *)
Lemma firstFreeLane_spec (used : list nat) :
  (firstFreeLane used ∉ used)
  ∧ ∀ n, (n < firstFreeLane used)%nat → n ∈ used.
Proof.
  unfold firstFreeLane.
  destruct (whileIncludes_spec (S (length used)) used 0) as (_ & Hfree & Hbelow).
  - pose proof (length_filter (λ n, 0 ≤ n)%nat used). lia.
  - split; [done|]. intros n Hn. apply Hbelow. lia.
Qed.

(** More fuel does not change the lane: the bound is not what stops the
    loop. *)
Lemma whileIncludes_fuel (fuel : nat) (used : list nat) :
  (length used < fuel)%nat →
  whileIncludes fuel used 0 = firstFreeLane used.
Proof.
  intros Hfuel.
  destruct (whileIncludes_spec fuel used 0) as (_ & Hfree & Hbelow).
  { pose proof (length_filter (λ n, 0 ≤ n)%nat used). lia. }
  destruct (firstFreeLane_spec used) as [Hfree' Hbelow'].
  destruct (lt_eq_lt_dec (whileIncludes fuel used 0) (firstFreeLane used))
    as [[Hlt|Heq]|Hgt]; [|done|].
  - exfalso. apply Hfree. by apply Hbelow'.
  - exfalso. apply Hfree'. apply Hbelow. lia.
Qed.

Lemma Math_max_spec (first : nat) (rest : list nat) :
  (first ≤ Math_max first rest)%nat
  ∧ (∀ m, m ∈ rest → (m ≤ Math_max first rest)%nat)
  ∧ (Math_max first rest = first ∨ Math_max first rest ∈ rest).
Proof.
  unfold Math_max. induction rest as [|r rest (IH1 & IH2 & IH3)]; simpl.
  - split_and!; [lia| |by left]. intros m Hm. by apply elem_of_nil in Hm.
  - split_and!; [lia| |].
    + intros m [->|Hm]%elem_of_cons; [lia|]. specialize (IH2 m Hm). lia.
    + destruct (Nat.max_spec r (foldr Nat.max first rest)) as [[_ ->]|[_ ->]].
      * destruct IH3 as [->|IH3]; [by left|]. right. by apply elem_of_cons; right.
      * right. apply elem_of_cons. by left.
Qed.

(** ** One placement, and the whole run *)

Section LaneAllocatorFacts.
Context {T : Type}.
Variable startTime : T → Z.
Variable endTime : T → option Z.

Abbreviation conflicts := (conflictsWith startTime endTime).
Abbreviation place := (placeItem startTime endTime).
Abbreviation sorted := (sortedItems startTime).
Abbreviation allocate := (allocateLanes startTime endTime).
Abbreviation overlaps := (overlap startTime endTime).

Lemma conflictsWith_overlap (x : T) (existing : Positioned T) :
  conflicts x existing ↔ overlaps (item existing) x.
Proof. unfold conflictsWith, overlap. lia. Qed.

Lemma overlap_sym (a b : T) : overlaps a b ↔ overlaps b a.
Proof. unfold overlap. lia. Qed.

(** Writing [maxLanes] moves no item and changes no lane. *)
Lemma lanes_of_conflicts_fmap (f : Positioned T → Positioned T)
    (x : T) (l : list (Positioned T)) :
  (∀ e, item (f e) = item e ∧ lane (f e) = lane e) →
  lane <$> filter (conflicts x) (f <$> l)
  = lane <$> filter (conflicts x) l.
Proof.
  intros Hf. induction l as [|e l IH]; [done|].
  rewrite fmap_cons, !filter_cons.
  destruct (Hf e) as [Hitem Hlane].
  assert (conflicts x (f e) ↔ conflicts x e) as Hiff.
  { unfold conflictsWith. by rewrite Hitem. }
  destruct (decide (conflicts x (f e))) as [Hc|Hc];
    destruct (decide (conflicts x e)) as [Hc'|Hc']; try tauto.
  rewrite !fmap_cons, IH. by f_equal.
Qed.

Lemma placeItem_length (positioned : list (Positioned T)) (x : T) :
  length (place positioned x) = S (length positioned).
Proof.
  unfold placeItem.
  rewrite length_app, length_fmap. simpl. lia.
Qed.

Lemma placeItem_items (positioned : list (Positioned T)) (x : T) :
  item <$> place positioned x = (item <$> positioned) ++ [x].
Proof.
  unfold placeItem. rewrite fmap_app. simpl. f_equal.
  rewrite <- list_fmap_compose. apply list_fmap_ext.
  intros i e _. simpl. by case_decide.
Qed.

(** The items come out in the order in which they were placed, which is
    the sorted order. *)
Lemma foldl_placeItem_items (l : list T) (acc : list (Positioned T)) :
  item <$> foldl place acc l = (item <$> acc) ++ l.
Proof.
  revert acc. induction l as [|x l IH]; intros acc; simpl.
  - by rewrite app_nil_r.
  - rewrite IH, placeItem_items, <- app_assoc. done.
Qed.

Lemma allocateLanes_items (items : list T) :
  item <$> allocate items = sorted items.
Proof. unfold allocateLanes. by rewrite foldl_placeItem_items. Qed.

Lemma insertByStart_Permutation (x : T) (l : list T) :
  insertByStart startTime x l ≡ₚ x :: l.
Proof.
  induction l as [|y l IH]; simpl; [done|].
  case_decide; [done|]. rewrite IH. apply Permutation_swap.
Qed.

Lemma sortedItems_Permutation (items : list T) : sorted items ≡ₚ items.
Proof.
  induction items as [|x items IH]; simpl; [done|].
  by rewrite insertByStart_Permutation, IH.
Qed.

Lemma insertByStart_Sorted (x : T) (l : list T) :
  Sorted (λ a b, startTime a ≤ startTime b) l →
  Sorted (λ a b, startTime a ≤ startTime b)
    (insertByStart startTime x l).
Proof.
  induction 1 as [|y l Hs IH Hhd]; simpl.
  - by repeat constructor.
  - case_decide.
    + constructor; [by constructor|]. constructor. lia.
    + constructor; [done|].
      destruct Hhd as [|z l Hyz]; simpl.
      * constructor. lia.
      * case_decide; constructor; lia.
Qed.

Lemma sortedItems_Sorted (items : list T) :
  Sorted (λ a b, startTime a ≤ startTime b) (sorted items).
Proof.
  induction items as [|x items IH]; simpl; [constructor|].
  by apply insertByStart_Sorted.
Qed.

Abbreviation FirstFit_ := (FirstFit startTime endTime).

Lemma placeItem_FirstFit (positioned : list (Positioned T)) (x : T) :
  FirstFit_ positioned → FirstFit_ (place positioned x).
Proof.
  intros Hinv j b Hj.
  pose proof (lookup_lt_Some _ _ _ Hj) as Hlen.
  rewrite placeItem_length in Hlen.
  unfold placeItem in *.
  set (upd := λ existing : Positioned T, _) in *.
  assert (∀ e, item (upd e) = item e ∧ lane (upd e) = lane e) as Hupd.
  { intros e. unfold upd. by case_decide. }
  destruct (decide (j < length positioned)%nat) as [Hlt|Hge].
  - rewrite lookup_app_l in Hj by (by rewrite length_fmap).
    rewrite list_lookup_fmap in Hj.
    destruct (positioned !! j) as [e|] eqn:He; [|done].
    simpl in Hj. injection Hj as <-.
    rewrite take_app_le by (rewrite length_fmap; lia).
    rewrite <- fmap_take.
    destruct (Hupd e) as [-> ->].
    rewrite lanes_of_conflicts_fmap by done.
    by apply Hinv.
  - assert (j = length positioned) as -> by lia.
    rewrite lookup_app_r in Hj by (by rewrite length_fmap).
    rewrite length_fmap, Nat.sub_diag in Hj. simpl in Hj. injection Hj as <-.
    simpl.
    rewrite take_app_le by (by rewrite length_fmap).
    rewrite take_ge by (by rewrite length_fmap).
    by rewrite lanes_of_conflicts_fmap.
Qed.

Lemma foldl_placeItem_FirstFit (l : list T) (acc : list (Positioned T)) :
  FirstFit_ acc → FirstFit_ (foldl place acc l).
Proof.
  revert acc. induction l as [|x l IH]; intros acc Hacc; simpl; [done|].
  apply IH. by apply placeItem_FirstFit.
Qed.

Lemma allocateLanes_FirstFit (items : list T) :
  FirstFit_ (allocate items).
Proof.
  apply foldl_placeItem_FirstFit. intros j b Hj.
  by rewrite lookup_nil in Hj.
Qed.

(** Membership in the lanes used by the conflicts placed before
    position [j]. *)
Lemma used_lane_before (l : list (Positioned T)) (x : T) (j n : nat) :
  n ∈ lane <$> filter (conflicts x) (take j l)
  ↔ ∃ i a, (i < j)%nat ∧ l !! i = Some a
           ∧ overlaps (item a) x ∧ lane a = n.
Proof.
  rewrite list_elem_of_fmap. split.
  - intros (a & -> & Ha). apply list_elem_of_filter in Ha as [Hc Ha].
    apply list_elem_of_lookup in Ha as [i Hi].
    apply lookup_take_Some in Hi as [Hi Hlt].
    exists i, a. split_and!; [done|done| |done].
    by apply conflictsWith_overlap.
  - intros (i & a & Hlt & Hi & Hov & <-). exists a. split; [done|].
    apply list_elem_of_filter. split; [by apply conflictsWith_overlap|].
    apply list_elem_of_lookup. exists i. by apply lookup_take_Some.
Qed.

Lemma first_fit (items : list T) (j : nat) (b : Positioned T) :
  allocate items !! j = Some b →
  (∀ i a, (i < j)%nat → allocate items !! i = Some a →
          overlaps (item a) (item b) → lane a ≠ lane b)
  ∧ (∀ n, (n < lane b)%nat →
          ∃ i a, (i < j)%nat ∧ allocate items !! i = Some a
                 ∧ overlaps (item a) (item b) ∧ lane a = n).
Proof.
  intros Hj. pose proof (allocateLanes_FirstFit items j b Hj) as Hlane.
  destruct (firstFreeLane_spec
              (lane <$> filter (conflicts (item b))
                          (take j (allocate items))))
    as [Hfree Hbelow].
  rewrite <- Hlane in Hfree, Hbelow.
  split.
  - intros i a Hlt Hi Hov Heq. apply Hfree.
    apply used_lane_before. by exists i, a.
  - intros n Hn. apply used_lane_before. by apply Hbelow.
Qed.

(** C2.  No-overlap invariant: whatever list the allocator is given, two
    distinct items of its output whose effective intervals overlap (the
    effective end being the end time when there is one, and the start plus
    sixty minutes otherwise) lie on different lanes. *)
Theorem allocateLanes_no_overlap (items : list T) (i j : nat)
    (a b : Positioned T) :
  i ≠ j →
  allocate items !! i = Some a →
  allocate items !! j = Some b →
  overlaps (item a) (item b) →
  lane a ≠ lane b.
Proof.
  intros Hne Hi Hj Hov.
  destruct (decide (i < j)%nat) as [Hlt|Hge].
  - destruct (first_fit items j b Hj) as [Hfree _]. by eapply Hfree.
  - destruct (first_fit items i a Hi) as [Hfree _].
    intros Heq. eapply (Hfree j b); [lia|done| |done].
    by apply overlap_sym.
Qed.

(** What one placement does to the array. *)
Lemma placeItem_step (positioned : list (Positioned T)) (x : T) :
  let cs := filter (conflicts x) positioned in
  let newLane := firstFreeLane (lane <$> cs) in
  let m := Math_max (newLane + 1) (maxLanes <$> cs) in
  place positioned x !! length positioned
    = Some (mkPositioned x newLane m)
  ∧ (∀ i e, positioned !! i = Some e →
       place positioned x !! i
       = Some (if decide (conflicts x e)
               then mkPositioned (item e) (lane e) m else e)).
Proof.
  intros cs newLane m. unfold placeItem.
  split.
  - rewrite lookup_app_r by (by rewrite length_fmap).
    by rewrite length_fmap, Nat.sub_diag.
  - intros i e Hi.
    rewrite lookup_app_l
      by (rewrite length_fmap; by eapply lookup_lt_Some).
    rewrite list_lookup_fmap, Hi. done.
Qed.
End LaneAllocatorFacts.

(** ** The three-item chain A(0-60), B(30-90), C(80-140) *)

Example allocate_chain :
  (λ p, (ti_id (item p), lane p, maxLanes p))
    <$> allocateTimed [itemA; itemB; itemC]
  = [("A", 0, 2); ("B", 1, 2); ("C", 0, 2)]%nat.
Proof. vm_compute. reflexivity. Qed.

(** The input order does not matter: the items are sorted first. *)
Example allocate_chain_unsorted :
  allocateTimed [itemC; itemA; itemB] = allocateTimed [itemA; itemB; itemC].
Proof. vm_compute. reflexivity. Qed.

(** A fourth item D(85-100) meets B and C but not A: B, C and D go to three
    lanes, and A, which is in the same cluster through B, stays at two. *)
Example allocate_chain_D :
  (λ p, (ti_id (item p), lane p, maxLanes p))
    <$> allocateTimed [itemA; itemB; itemC; itemD]
  = [("A", 0, 2); ("B", 1, 3); ("C", 0, 3); ("D", 2, 3)]%nat.
Proof. vm_compute. reflexivity. Qed.

Lemma allocateLanes_no_overlap_witness :
  ti_id <$> (item <$> allocateTimed [itemA; itemB]) = ["A"; "B"]%string
  ∧ overlap ti_startTime ti_endTime itemA itemB
  ∧ lane (mkPositioned itemA 0 2) ≠ lane (mkPositioned itemB 1 2).
Proof.
  split; [reflexivity|]. split; [vm_compute; split; reflexivity|].
  apply (allocateLanes_no_overlap ti_startTime ti_endTime [itemA; itemB] 0 1).
  - lia.
  - reflexivity.
  - reflexivity.
  - vm_compute. split; reflexivity.
Defined.

(** C3.  First fit: the lane of every item of the output is the least
    natural number that no item placed before it (the items earlier in the
    output) with an overlapping effective interval uses; and in the chain
    A-B, B-C with A and C disjoint, C is back on lane 0. *)
Theorem allocateLanes_first_fit :
  (∀ (T : Type) (startTime : T → Z) (endTime : T → option Z)
     (items : list T) (j : nat) (b : Positioned T),
     allocateLanes startTime endTime items !! j = Some b →
     (∀ i a, (i < j)%nat →
        allocateLanes startTime endTime items !! i = Some a →
        overlap startTime endTime (item a) (item b) → lane a ≠ lane b)
     ∧ (∀ n, (n < lane b)%nat →
        ∃ i a, (i < j)%nat
          ∧ allocateLanes startTime endTime items !! i = Some a
          ∧ overlap startTime endTime (item a) (item b)
          ∧ lane a = n))
  ∧ (λ p, (ti_id (item p), lane p)) <$> allocateTimed [itemA; itemB; itemC]
    = [("A", 0); ("B", 1); ("C", 0)]%nat.
Proof.
  split.
  - intros T startTime endTime items j b Hj. by apply first_fit.
  - vm_compute. reflexivity.
Qed.

(** B sits on lane 1 because lane 0 is taken by an overlapping item placed
    before it. *)
Lemma allocateLanes_first_fit_witness :
  ∃ i a, (i < 1)%nat
    ∧ allocateTimed [itemA; itemB] !! i = Some a
    ∧ overlap ti_startTime ti_endTime (item a) itemB
    ∧ lane a = 0%nat.
Proof.
  destruct allocateLanes_first_fit as [Hgen _].
  destruct (Hgen TimedItem ti_startTime ti_endTime [itemA; itemB] 1%nat
              (mkPositioned itemB 1 2)) as [_ Hleast].
  - reflexivity.
  - apply (Hleast 0%nat). simpl. lia.
Defined.

(** C1, as the claim has it, fails: on the chain A, B, C no item reports
    three lanes (they all report two); and with D added, A keeps the count 2
    while the rest of its cluster moves to 3. *)
Lemma laneCount_chain_not_three :
  (∀ p, p ∈ allocateTimed [itemA; itemB; itemC] → maxLanes p ≠ 3%nat)
  ∧ maxLanes <$> allocateTimed [itemA; itemB; itemC; itemD]
    = [2; 3; 3; 3]%nat.
Proof.
  split; [|vm_compute; reflexivity].
  intros p Hp.
  assert (maxLanes p ∈ maxLanes <$> allocateTimed [itemA; itemB; itemC]) as Hm
    by (by apply list_elem_of_fmap_2).
  assert (maxLanes <$> allocateTimed [itemA; itemB; itemC] = [2; 2; 2]%nat)
    as Heq by (vm_compute; reflexivity).
  rewrite Heq in Hm.
  repeat (apply elem_of_cons in Hm as [->|Hm]; [lia|]).
  by apply elem_of_nil in Hm.
Qed.

(* ===================================================================== *)
(** * Properties of the reward calculator *)
(* ===================================================================== *)

(** [Math.round] on a few numbers: ties go up, also below zero; a small
    negative number rounds to [-0]; NaN stays NaN. *)
Example Math_round_samples :
  (Math_round 2.5, Math_round (-2.5), Math_round 7.4, Math_round (-0.2),
   Math_round 0.49999999999999994, Math_round nan)%float
  = (3, -2, 7, neg_zero, 0, nan)%float.
Proof. vm_compute. reflexivity. Qed.

Lemma basePriorityMultipliers_unknown (priority : string) :
  priority ∉ ["low"; "medium"; "high"; "urgent"]%string →
  basePriorityMultipliers !! priority = None.
Proof.
  intros Hout. unfold basePriorityMultipliers. simpl.
  rewrite !lookup_insert_ne; [apply lookup_empty|..];
    intros <-; apply Hout; set_solver.
Qed.

Lemma domainMultipliers_unknown (domain : string) :
  domain ∉ ["academic"; "fitness"; "creative"; "social"; "maintenance"]%string →
  domainMultipliers !! domain = None.
Proof.
  intros Hout. unfold domainMultipliers. simpl.
  rewrite !lookup_insert_ne; [apply lookup_empty|..];
    intros <-; apply Hout; set_solver.
Qed.

(** A key that is neither in the table nor a property of
    [Object.prototype] reads as [undefined], and [||] picks the default. *)
Lemma calculateXPReward_default (priority : string) (hours : float) :
  priority ∉ ["low"; "medium"; "high"; "urgent"]%string →
  priority ∉ Object_prototype_properties →
  calculateXPReward priority hours = Math_round (15 * hours)%float.
Proof.
  intros Hout Hproto. unfold calculateXPReward, getProperty.
  rewrite basePriorityMultipliers_unknown by done.
  by rewrite decide_False.
Qed.

Lemma calculateEUReward_default (domain : string) (hours : float) :
  domain ∉ ["academic"; "fitness"; "creative"; "social"; "maintenance"]%string →
  domain ∉ Object_prototype_properties →
  calculateEUReward domain hours = Math_round ((hours * 1.0) * 10)%float.
Proof.
  intros Hout Hproto. unfold calculateEUReward, getProperty.
  rewrite domainMultipliers_unknown by done.
  by rewrite decide_False.
Qed.

(** The keys of the two tables read as their entries. *)
Lemma calculateXPReward_table (hours : float) :
  calculateXPReward "low" hours = Math_round (10 * hours)%float
  ∧ calculateXPReward "medium" hours = Math_round (15 * hours)%float
  ∧ calculateXPReward "high" hours = Math_round (25 * hours)%float
  ∧ calculateXPReward "urgent" hours = Math_round (40 * hours)%float.
Proof. split_and!; reflexivity. Qed.

Lemma calculateEUReward_table (hours : float) :
  calculateEUReward "academic" hours = Math_round ((hours * 1.0) * 10)%float
  ∧ calculateEUReward "fitness" hours = Math_round ((hours * 2.5) * 10)%float
  ∧ calculateEUReward "creative" hours = Math_round ((hours * 0.8) * 10)%float
  ∧ calculateEUReward "social" hours = Math_round ((hours * 1.2) * 10)%float
  ∧ calculateEUReward "maintenance" hours
    = Math_round ((hours * 0.6) * 10)%float.
Proof. split_and!; reflexivity. Qed.

(** C8, at an input where the code departs from it: the names that every
    object inherits from [Object.prototype] are outside both tables, yet
    reading them gives a function, which is truthy, so [|| 15] and [|| 1.0]
    are not taken and the product, hence the reward, is NaN. *)
Theorem inherited_key_gives_NaN :
  ("constructor"%string ∉ ["low"; "medium"; "high"; "urgent"]%string)
  ∧ ("constructor"%string
      ∉ ["academic"; "fitness"; "creative"; "social"; "maintenance"]%string)
  ∧ calculateXPReward "constructor" 2 = nan
  ∧ Math_round (15 * 2)%float = 30%float
  ∧ calculateEUReward "constructor" 2 = nan
  ∧ Math_round ((2 * 1.0) * 10)%float = 20%float.
Proof.
  split_and!; try (vm_compute; reflexivity);
    intros Hin; repeat (apply elem_of_cons in Hin as [Hin|Hin]; [discriminate|]);
    by apply elem_of_nil in Hin.
Qed.

(* ===================================================================== *)
(** * Properties of the store *)
(* ===================================================================== *)

Section StorageFacts.
Variable parseFloat : string → float.

Abbreviation rewardsOf := (calculateRewards parseFloat).
Abbreviation update := (updateTask parseFloat).

Lemma updateTask_found (tasks : gmap string Task) (now : Date)
    (taskId : string) (t : Task) (u : UpdateTask) :
  tasks !! taskId = Some t →
  update tasks now taskId u
  = (<[taskId := mergeTask t u (rewardsOf t u) now]> tasks,
     Some (mergeTask t u (rewardsOf t u) now)).
Proof. intros Ht. unfold updateTask. by rewrite Ht. Qed.

(** The rewards are computed exactly on the step from incomplete to
    complete, from the stored priority and domain and from the hours. *)
Lemma calculateRewards_Some (t : Task) (u : UpdateTask)
    (r : CalculatedRewards) :
  rewardsOf t u = Some r ↔
    ut_isCompleted u = Some true ∧ isCompleted t = false
    ∧ r = {| cr_xpReward :=
               calculateXPReward (priority t)
                 (parseFloat (actualHoursOr (ut_actualHours u)
                                (estimatedHours t)));
             cr_euReward :=
               calculateEUReward (domain t)
                 (parseFloat (actualHoursOr (ut_actualHours u)
                                (estimatedHours t)));
             cr_actualHours :=
               actualHoursOr (ut_actualHours u) (estimatedHours t) |}.
Proof.
  unfold calculateRewards.
  destruct (ut_isCompleted u) as [[|]|], (isCompleted t); simpl;
    split; try (intros (? & ? & ?)); try intros ?; try discriminate;
    try done.
  - split_and!; congruence.
  - congruence.
Qed.

Lemma calculateRewards_None (t : Task) (u : UpdateTask) :
  rewardsOf t u = None ↔
    ut_isCompleted u ≠ Some true ∨ isCompleted t = true.
Proof.
  unfold calculateRewards.
  destruct (ut_isCompleted u) as [[|]|], (isCompleted t); simpl;
    split; try intros [?|?]; try intros ?; try discriminate; try done;
    by (left + right).
Qed.
End StorageFacts.

(* ===================================================================== *)
(** * Properties of the handlers *)
(* ===================================================================== *)

Section RoutesFacts.
Variable parseFloat : string → float.
Variable Number_toString : float → string.
Variable Date_parse : string → JSDate.
Variable multipleOf : float → float → bool.

Abbreviation patch :=
  (patchTask parseFloat Number_toString Date_parse multipleOf).
Abbreviation post := (postTask Number_toString Date_parse multipleOf).
Abbreviation parseUpdate := (clientUpdateTaskSchema_parse multipleOf).
Abbreviation parseCreate := (clientTaskSchema_parse multipleOf).
Abbreviation serverFormat := (toUpdateData Number_toString Date_parse).

(** A validated update carries the [isCompleted] of the body. *)
Lemma parseUpdate_isCompleted (req_body : gmap string JSON)
    (v : ClientUpdateTask) (b : bool) :
  parseUpdate req_body = Some v →
  req_body !! "isCompleted"%string = Some (JBool b) →
  cu_isCompleted v = Some b.
Proof.
  unfold clientUpdateTaskSchema_parse. intros Hparse Hkey.
  repeat match type of Hparse with
         | context [optionalKey ?sch ?bd ?k] =>
             let E := fresh "E" in
             destruct (optionalKey sch bd k) eqn:E; simpl in Hparse;
             [|discriminate]
         end.
  injection Hparse as <-. simpl.
  unfold optionalKey in *. rewrite Hkey in *. simpl in *. congruence.
Qed.

(** A body without [actualHours] validates to an update without it. *)
Lemma parseUpdate_no_actualHours (req_body : gmap string JSON)
    (v : ClientUpdateTask) :
  parseUpdate req_body = Some v →
  req_body !! "actualHours"%string = None →
  cu_actualHours v = None.
Proof.
  unfold clientUpdateTaskSchema_parse. intros Hparse Hkey.
  repeat match type of Hparse with
         | context [optionalKey ?sch ?bd ?k] =>
             let E := fresh "E" in
             destruct (optionalKey sch bd k) eqn:E; simpl in Hparse;
             [|discriminate]
         end.
  injection Hparse as <-. simpl.
  unfold optionalKey in *. rewrite Hkey in *. simpl in *. congruence.
Qed.

(** The second validation keeps what the first one let through. *)
Lemma updateTaskSchema_parse_fields (now : Date) (v : ClientUpdateTask)
    (u : UpdateTask) :
  updateTaskSchema_parse (serverFormat now v) = Some u →
  ut_isCompleted u = cu_isCompleted v
  ∧ (cu_actualHours v = None → ut_actualHours u = None).
Proof.
  unfold updateTaskSchema_parse, toUpdateData. simpl.
  destruct (cu_dueDate v) as [s|];
    [destruct (truthyString s); [destruct (Date_parse s)|]|];
    destruct (default false (cu_isCompleted v)); simpl;
    try discriminate;
    intros Hparse; injection Hparse as <-; simpl;
    (split; [done|]); by intros ->.
Qed.

(** The handler either refuses the request and leaves the store as it
    was, or hands a validated update of the caller's own task to
    [updateTask]. *)
Lemma patchTask_cases (tasks : gmap string Task) (now : Date)
    (session : option string) (taskId : string)
    (req_body : gmap string JSON) :
  (∃ resp, patch tasks now session taskId req_body = (tasks, resp)
     ∧ (status resp = 401 ∨ status resp = 404 ∨ status resp = 400)%nat)
  ∨ (∃ t v u,
       tasks !! taskId = Some t
       ∧ authenticated session = Some (userId t)
       ∧ parseUpdate req_body = Some v
       ∧ ¬ (cu_isCompleted v = Some false ∧ isCompleted t = true)
       ∧ updateTaskSchema_parse (serverFormat now v) = Some u
       ∧ patch tasks now session taskId req_body
         = (<[taskId := mergeTask t u (calculateRewards parseFloat t u) now]>
              tasks,
            mkResponse 200
              (TaskBody (mergeTask t u (calculateRewards parseFloat t u) now)))).
Proof.
  unfold patchTask.
  destruct (authenticated session) as [uid|]; [|left; eexists; split; [done|]; simpl; tauto].
  destruct (tasks !! taskId) as [t|] eqn:Ht; [|left; eexists; split; [done|]; simpl; tauto].
  destruct (bool_decide (userId t = uid)) eqn:Huid; simpl;
    [|left; eexists; split; [done|]; simpl; tauto].
  apply bool_decide_eq_true in Huid. subst uid.
  destruct (parseUpdate req_body) as [v|] eqn:Hv;
    [|left; eexists; split; [done|]; simpl; tauto].
  destruct (bool_decide (cu_isCompleted v = Some false) && isCompleted t)
    eqn:Hun; [left; eexists; split; [done|]; simpl; tauto|].
  destruct (updateTaskSchema_parse (serverFormat now v)) as [u|] eqn:Hu;
    [|left; eexists; split; [done|]; simpl; tauto].
  right. exists t, v, u. rewrite (updateTask_found parseFloat _ _ _ t) by done.
  split_and!; try done.
  intros [Hfalse Hdone]. rewrite Hdone, andb_true_r in Hun.
  by apply bool_decide_eq_false in Hun.
Qed.

Lemma patchTask_accepted (tasks : gmap string Task) (now : Date)
    (session : option string) (taskId : string)
    (req_body : gmap string JSON) (t : Task) (v : ClientUpdateTask)
    (u : UpdateTask) :
  tasks !! taskId = Some t →
  authenticated session = Some (userId t) →
  parseUpdate req_body = Some v →
  ¬ (cu_isCompleted v = Some false ∧ isCompleted t = true) →
  updateTaskSchema_parse (serverFormat now v) = Some u →
  patch tasks now session taskId req_body
  = (<[taskId := mergeTask t u (calculateRewards parseFloat t u) now]> tasks,
     mkResponse 200
       (TaskBody (mergeTask t u (calculateRewards parseFloat t u) now))).
Proof.
  intros Ht Hauth Hv Hun Hu. unfold patchTask.
  rewrite Hauth, Ht, bool_decide_true by done. simpl. rewrite Hv.
  destruct (bool_decide (cu_isCompleted v = Some false) && isCompleted t)
    eqn:Hb.
  - apply andb_true_iff in Hb as [Hb1%bool_decide_eq_true Hb2]. tauto.
  - rewrite Hu, (updateTask_found parseFloat _ _ _ t) by done. done.
Qed.

(** Keys that the update schema does not name never reach the handler. *)
Lemma parseUpdate_strips (req_body : gmap string JSON) (k : string)
    (x : JSON) :
  k ∈ ["xpReward"; "euReward"]%string →
  parseUpdate (<[k := x]> req_body) = parseUpdate (delete k req_body).
Proof.
  intros Hk. unfold clientUpdateTaskSchema_parse, optionalKey.
  apply elem_of_cons in Hk as [->|Hk];
    [|apply elem_of_cons in Hk as [->|Hk]; [|by apply elem_of_nil in Hk]];
    by rewrite !lookup_insert_ne, !lookup_delete_ne by done.
Qed.

(** C4.  A PATCH whose body carries [isCompleted: false], for a task that
    is stored as completed, never reaches the store: the store is left as
    it was and the status is 401, 404 or 400; and when the caller is the
    signed-in owner of the task and the body passes the client schema, the
    response is the 400 with the reward-integrity message. *)
Theorem uncompletion_rejected (tasks : gmap string Task) (now : Date)
    (session : option string) (taskId : string)
    (req_body : gmap string JSON) (t : Task) :
  tasks !! taskId = Some t →
  isCompleted t = true →
  req_body !! "isCompleted"%string = Some (JBool false) →
  ∃ resp,
    patch tasks now session taskId req_body = (tasks, resp)
    ∧ (status resp = 401 ∨ status resp = 404 ∨ status resp = 400)%nat
    ∧ (authenticated session = Some (userId t) →
       is_Some (parseUpdate req_body) →
       resp = uncompleteResponse).
Proof.
  intros Ht Hdone Hkey. unfold patchTask. rewrite Ht.
  destruct (authenticated session) as [uid|];
    [|eexists; split_and!; [done|simpl; tauto|done]].
  destruct (bool_decide (userId t = uid)) eqn:Huid; simpl.
  - destruct (parseUpdate req_body) as [v|] eqn:Hv.
    + rewrite (parseUpdate_isCompleted _ _ _ Hv Hkey), Hdone.
      rewrite bool_decide_true by done. simpl.
      eexists. split_and!; [done|simpl; tauto|done].
    + eexists. split_and!; [done|simpl; tauto|].
      intros _ [? ?]. discriminate.
  - apply bool_decide_eq_false in Huid.
    eexists. split_and!; [done|simpl; tauto|]. intros [= ->]. by destruct Huid.
Qed.

(** C5.  Completing a task that is stored as completed: [updateTask]
    computes no rewards and keeps the stored [xpReward] and [euReward]; and
    the handler, for the signed-in owner and a body that passes both
    schemas, answers 200 with that task. *)
Theorem double_completion_keeps_rewards (tasks : gmap string Task)
    (now : Date) (taskId : string) (t : Task) :
  tasks !! taskId = Some t →
  isCompleted t = true →
  (∀ u, ut_isCompleted u = Some true →
     calculateRewards parseFloat t u = None
     ∧ ∃ t', updateTask parseFloat tasks now taskId u
             = (<[taskId := t']> tasks, Some t')
        ∧ xpReward t' = xpReward t ∧ euReward t' = euReward t
        ∧ isCompleted t' = true)
  ∧ (∀ session req_body v,
       authenticated session = Some (userId t) →
       req_body !! "isCompleted"%string = Some (JBool true) →
       parseUpdate req_body = Some v →
       is_Some (updateTaskSchema_parse (serverFormat now v)) →
       ∃ t', patch tasks now session taskId req_body
             = (<[taskId := t']> tasks, mkResponse 200 (TaskBody t'))
         ∧ xpReward t' = xpReward t ∧ euReward t' = euReward t
         ∧ isCompleted t' = true).
Proof.
  intros Ht Hdone.
  assert (∀ u, ut_isCompleted u = Some true →
            calculateRewards parseFloat t u = None) as Hnone.
  { intros u Hu. apply calculateRewards_None. by right. }
  split.
  - intros u Hu. split; [by apply Hnone|].
    eexists. split; [by apply updateTask_found|].
    rewrite (Hnone u Hu). simpl. by rewrite Hu.
  - intros session req_body v Hauth Hkey Hv [u Hu].
    pose proof (parseUpdate_isCompleted _ _ _ Hv Hkey) as Hcu.
    destruct (updateTaskSchema_parse_fields _ _ _ Hu) as [Hut _].
    rewrite Hcu in Hut.
    eexists. split.
    + eapply patchTask_accepted; try done. rewrite Hcu. by intros [? _].
    + rewrite (Hnone u Hut). simpl. by rewrite Hut.
Qed.

(** C7.  On the step from incomplete to complete, an update without
    [actualHours] is rewarded on the stored [estimatedHours], and that
    string becomes the task's [actualHours]; the same holds through the
    handler for a body without the key. *)
Theorem default_hours_fallback (tasks : gmap string Task) (now : Date)
    (taskId : string) (t : Task) :
  tasks !! taskId = Some t →
  isCompleted t = false →
  (∀ u, ut_isCompleted u = Some true → ut_actualHours u = None →
     ∃ t', updateTask parseFloat tasks now taskId u
           = (<[taskId := t']> tasks, Some t')
       ∧ xpReward t'
         = calculateXPReward (priority t) (parseFloat (estimatedHours t))
       ∧ euReward t'
         = calculateEUReward (domain t) (parseFloat (estimatedHours t))
       ∧ actualHours t' = Some (estimatedHours t))
  ∧ (∀ session req_body v,
       authenticated session = Some (userId t) →
       req_body !! "isCompleted"%string = Some (JBool true) →
       req_body !! "actualHours"%string = None →
       parseUpdate req_body = Some v →
       is_Some (updateTaskSchema_parse (serverFormat now v)) →
       ∃ t', patch tasks now session taskId req_body
             = (<[taskId := t']> tasks, mkResponse 200 (TaskBody t'))
         ∧ xpReward t'
           = calculateXPReward (priority t) (parseFloat (estimatedHours t))
         ∧ euReward t'
           = calculateEUReward (domain t) (parseFloat (estimatedHours t))
         ∧ actualHours t' = Some (estimatedHours t)).
Proof.
  intros Ht Hopen.
  assert (∀ u, ut_isCompleted u = Some true → ut_actualHours u = None →
            calculateRewards parseFloat t u
            = Some {| cr_xpReward :=
                        calculateXPReward (priority t)
                          (parseFloat (estimatedHours t));
                      cr_euReward :=
                        calculateEUReward (domain t)
                          (parseFloat (estimatedHours t));
                      cr_actualHours := estimatedHours t |}) as Hsome.
  { intros u Hu Hno. apply calculateRewards_Some. by rewrite Hno. }
  split.
  - intros u Hu Hno. eexists. split; [by apply updateTask_found|].
    by rewrite (Hsome u Hu Hno).
  - intros session req_body v Hauth Hkey Hnokey Hv [u Hu].
    pose proof (parseUpdate_isCompleted _ _ _ Hv Hkey) as Hcu.
    pose proof (parseUpdate_no_actualHours _ _ Hv Hnokey) as Hcno.
    destruct (updateTaskSchema_parse_fields _ _ _ Hu) as [Hut Hno].
    rewrite Hcu in Hut. specialize (Hno Hcno).
    eexists. split.
    + eapply patchTask_accepted; try done. rewrite Hcu. by intros [? _].
    + by rewrite (Hsome u Hut Hno).
Qed.

(** C9.  A created task starts with no rewards, incomplete, with no
    completion time and no actual hours, whatever the insert data or the
    POST body hold; the update schema reads neither [xpReward] nor
    [euReward] from a PATCH body, so the handler answers the same with or
    without them; and after any PATCH the two rewards of a task are the
    stored ones or the ones the server has just calculated. *)
Theorem rewards_server_controlled :
  (∀ tasks newId now insertTask,
     let created := (createTask tasks newId now insertTask).2 in
     (createTask tasks newId now insertTask).1 !! newId = Some created
     ∧ xpReward created = 0%float ∧ euReward created = 0%float
     ∧ isCompleted created = false ∧ completedAt created = None
     ∧ actualHours created = None)
  ∧ (∀ tasks newId now session req_body,
       status (post tasks newId now session req_body).2 = 201%nat →
       ∃ created,
         body (post tasks newId now session req_body).2 = TaskBody created
         ∧ (post tasks newId now session req_body).1 !! newId = Some created
         ∧ xpReward created = 0%float ∧ euReward created = 0%float
         ∧ isCompleted created = false ∧ completedAt created = None
         ∧ actualHours created = None)
  ∧ (∀ tasks now session taskId req_body k x,
       k ∈ ["xpReward"; "euReward"]%string →
       patch tasks now session taskId (<[k := x]> req_body)
       = patch tasks now session taskId (delete k req_body))
  ∧ (∀ tasks now session taskId req_body t t',
       tasks !! taskId = Some t →
       (patch tasks now session taskId req_body).1 !! taskId = Some t' →
       (xpReward t' = xpReward t ∧ euReward t' = euReward t)
       ∨ (isCompleted t = false ∧ isCompleted t' = true
          ∧ ∃ hours, xpReward t' = calculateXPReward (priority t) hours
                     ∧ euReward t' = calculateEUReward (domain t) hours)).
Proof.
  split_and!.
  - intros tasks newId now insertTask. simpl.
    by rewrite lookup_insert_eq.
  - intros tasks newId now session req_body. unfold postTask.
    destruct (authenticated session) as [uid|]; [|discriminate].
    destruct (parseCreate req_body) as [v|]; [|discriminate].
    destruct (insertTaskSchema_parse _) as [ins|]; [|discriminate].
    simpl. intros _. eexists. split; [done|].
    by rewrite lookup_insert_eq.
  - intros tasks now session taskId req_body k x Hk. unfold patchTask.
    by rewrite (parseUpdate_strips _ _ _ Hk).
  - intros tasks now session taskId req_body t t' Ht Ht'.
    destruct (patchTask_cases tasks now session taskId req_body)
      as [(resp & Hpatch & _)|(t0 & v & u & Ht0 & _ & _ & _ & Hu & Hpatch)];
      rewrite Hpatch in Ht'; simpl in Ht'.
    + left. rewrite Ht in Ht'. by injection Ht' as <-.
    + rewrite Ht in Ht0. injection Ht0 as <-.
      rewrite lookup_insert_eq in Ht'. injection Ht' as <-.
      destruct (calculateRewards parseFloat t u) as [r|] eqn:Hr; simpl.
      * right. apply calculateRewards_Some in Hr as (Hcomp & Hopen & ->).
        simpl. rewrite Hcomp. split_and!; [done|done|]. by eexists.
      * by left.
Qed.

End RoutesFacts.

(** C6.  With the tables of the code, a high-priority fitness task of two
    hours earns [round(25 * 2) = 50] XP and [round((2 * 2.5) * 10) = 50]
    EU; the two formulas are functions of their arguments alone, and the
    rewards that [updateTask] computes for two tasks that agree on priority,
    domain and hours agree, whatever else differs. *)
Theorem reward_determinism :
  calculateXPReward "high" 2 = 50%float
  ∧ Math_round (25 * 2)%float = 50%float
  ∧ calculateEUReward "fitness" 2 = 50%float
  ∧ Math_round ((2 * 2.5) * 10)%float = 50%float
  ∧ (∀ priority priority' domain domain' hours hours',
       priority = priority' → domain = domain' → hours = hours' →
       calculateXPReward priority hours = calculateXPReward priority' hours'
       ∧ calculateEUReward domain hours = calculateEUReward domain' hours')
  ∧ (∀ parseFloat t t' u u' r r',
       calculateRewards parseFloat t u = Some r →
       calculateRewards parseFloat t' u' = Some r' →
       priority t = priority t' → domain t = domain t' →
       cr_actualHours r = cr_actualHours r' →
       cr_xpReward r = cr_xpReward r' ∧ cr_euReward r = cr_euReward r').
Proof.
  split_and!; try (vm_compute; reflexivity).
  - by intros ?????? -> -> ->.
  - intros parseFloat t t' u u' r r' Hr Hr' Hp Hd Hh.
    apply calculateRewards_Some in Hr as (_ & _ & ->).
    apply calculateRewards_Some in Hr' as (_ & _ & ->).
    simpl in *. by rewrite Hp, Hd, Hh.
Qed.

Lemma reward_determinism_witness :
  calculateXPReward "high" 2 = calculateXPReward "high" 2
  ∧ calculateEUReward "fitness" 2 = calculateEUReward "fitness" 2.
Proof.
  destruct reward_determinism as (_ & _ & _ & _ & Hfun & _).
  apply (Hfun "high" "high" "fitness" "fitness" 2 2)%float%string;
    reflexivity.
Defined.

Lemma uncompletion_rejected_witness :
  ∃ resp,
    patchTask_sample sampleDoneStore 1735900000000 (Some "bruce"%string) "t1"
      {[ "isCompleted"%string := JBool false ]}
    = (sampleDoneStore, resp)
    ∧ (status resp = 401 ∨ status resp = 404 ∨ status resp = 400)%nat
    ∧ (authenticated (Some "bruce"%string) = Some (userId sampleDone) →
       is_Some (clientUpdateTaskSchema_parse multipleOf_tenths
                  {[ "isCompleted"%string := JBool false ]}) →
       resp = uncompleteResponse).
Proof.
  apply (uncompletion_rejected parseFloat_decimal Number_toString_tenths
           Date_parse_sample multipleOf_tenths sampleDoneStore
           1735900000000 (Some "bruce"%string) "t1"
           {[ "isCompleted"%string := JBool false ]} sampleDone);
    reflexivity.
Defined.

Lemma double_completion_keeps_rewards_witness :
  ∃ t', updateTask parseFloat_decimal sampleDoneStore 1735900000000 "t1"
          completeUpdate
        = (<["t1"%string := t']> sampleDoneStore, Some t')
    ∧ xpReward t' = 75%float ∧ euReward t' = 75%float
    ∧ isCompleted t' = true.
Proof.
  destruct (double_completion_keeps_rewards parseFloat_decimal
              Number_toString_tenths Date_parse_sample multipleOf_tenths
              sampleDoneStore 1735900000000 "t1" sampleDone)
    as [Hstore _]; [reflexivity|reflexivity|].
  destruct (Hstore completeUpdate) as [_ Hkept]; [reflexivity|].
  exact Hkept.
Defined.

Lemma default_hours_fallback_witness :
  ∃ t', updateTask parseFloat_decimal sampleStore 1735900000000 "t1"
          completeUpdate
        = (<["t1"%string := t']> sampleStore, Some t')
    ∧ xpReward t' = calculateXPReward "high" (parseFloat_decimal "2.0")
    ∧ euReward t' = calculateEUReward "fitness" (parseFloat_decimal "2.0")
    ∧ actualHours t' = Some "2.0"%string.
Proof.
  destruct (default_hours_fallback parseFloat_decimal
              Number_toString_tenths Date_parse_sample multipleOf_tenths
              sampleStore 1735900000000 "t1" sampleTask)
    as [Hstore _]; [reflexivity|reflexivity|].
  destruct (Hstore completeUpdate) as (t' & Hupd); [reflexivity|reflexivity|].
  exists t'. exact Hupd.
Defined.

(** The sample task, completed through the handler without actual hours:
    fifty and fifty, on the two estimated hours. *)
Example patch_sample_completion :
  ∃ t', (patchTask_sample sampleStore 1735900000000 (Some "bruce"%string)
           "t1" {[ "isCompleted"%string := JBool true ]}).2
        = mkResponse 200 (TaskBody t')
    ∧ xpReward t' = 50%float ∧ euReward t' = 50%float
    ∧ actualHours t' = Some "2.0"%string
    ∧ completedAt t' = Some 1735900000000.
Proof. eexists. vm_compute. split_and!; reflexivity. Qed.

Lemma rewards_server_controlled_witness :
  (∃ created,
     body (postTask_sample ∅ "t9" 1735900000000 (Some "bruce"%string)
             {[ "title"%string := JStr "Patrol";
                "domain"%string := JStr "fitness";
                "estimatedHours"%string := JNum 2;
                "actualHours"%string := JStr "9.0";
                "xpReward"%string := JNum 9999;
                "isCompleted"%string := JBool true ]}).2
     = TaskBody created
     ∧ xpReward created = 0%float ∧ euReward created = 0%float
     ∧ isCompleted created = false ∧ actualHours created = None)
  ∧ patchTask_sample sampleStore 1735900000000 (Some "bruce"%string) "t1"
      (<["xpReward"%string := JNum 9999]>
         {[ "title"%string := JStr "Train harder" ]})
    = patchTask_sample sampleStore 1735900000000 (Some "bruce"%string) "t1"
        (delete "xpReward"%string {[ "title"%string := JStr "Train harder" ]}).
Proof.
  destruct (rewards_server_controlled parseFloat_decimal
              Number_toString_tenths Date_parse_sample multipleOf_tenths)
    as (_ & Hpost & Hstrip & _).
  split.
  - destruct (Hpost ∅ "t9"%string 1735900000000 (Some "bruce"%string)
                {[ "title"%string := JStr "Patrol";
                   "domain"%string := JStr "fitness";
                   "estimatedHours"%string := JNum 2;
                   "actualHours"%string := JStr "9.0";
                   "xpReward"%string := JNum 9999;
                   "isCompleted"%string := JBool true ]})
      as (created & Hbody & _ & Hxp & Heu & Hopen & _ & Hhours);
      [vm_compute; reflexivity|].
    exists created. split_and!; assumption.
  - apply Hstrip. apply elem_of_cons. by left.
Defined.

(** A task created with a priority and a domain named after properties of
    [Object.prototype], then completed: the stored rewards are NaN. *)
Example inherited_key_end_to_end :
  let created :=
    (postTask_sample ∅ "t9" 1735900000000 (Some "bruce"%string)
       {[ "title"%string := JStr "Patrol";
          "domain"%string := JStr "constructor";
          "priority"%string := JStr "toString";
          "estimatedHours"%string := JNum 2 ]}).1 in
  let completed :=
    (patchTask_sample created 1735990000000 (Some "bruce"%string) "t9"
       {[ "isCompleted"%string := JBool true ]}).1 in
  (λ t, (status_of_rewards t)) <$> completed !! "t9"%string
  = Some (true, nan, nan).
Proof. vm_compute. reflexivity. Qed.

(* ===================================================================== *)
(** * Properties of the week view *)
(* ===================================================================== *)

Section WeekViewFacts.
Variable localOffset : Z → Z.

Abbreviation hourOf := (getHours localOffset).
Abbreviation dayOf := (toDateString localOffset).

(** [getHours()] is an hour of the day, so the test against [END_HOUR]
    never fails. *)
Lemma getHours_range (d : Date) : 0 ≤ hourOf d ≤ END_HOUR.
Proof.
  unfold getHours, END_HOUR.
  pose proof (Z.mod_pos_bound (localTime localOffset d `div` 3600000) 24).
  lia.
Qed.

Lemma isTimedTask_spec (t : Task) (d : Date) :
  dueDate t = Some d →
  isTimedTask localOffset t ↔ START_HOUR ≤ hourOf d ≤ END_HOUR.
Proof.
  intros Hd. unfold isTimedTask. rewrite Hd. simpl.
  rewrite andb_True, !bool_decide_spec. lia.
Qed.

Lemma isAllDayTask_spec (t : Task) (d : Date) :
  dueDate t = Some d →
  isAllDayTask localOffset t ↔ ¬ (START_HOUR ≤ hourOf d ≤ END_HOUR).
Proof.
  intros Hd. unfold isAllDayTask. rewrite Hd. simpl.
  rewrite orb_True, !bool_decide_spec. lia.
Qed.

Lemma elem_of_dayTasks (date : Date) (tasks : list Task) (t : Task) :
  t ∈ dayTasks localOffset date tasks
  ↔ t ∈ tasks ∧ ∃ d, dueDate t = Some d ∧ dayOf d = dayOf date.
Proof.
  unfold dayTasks. rewrite list_elem_of_filter. unfold isDueOn.
  split.
  - intros [Hon Hin]. split; [done|].
    destruct (dueDate t) as [d|]; [|done].
    exists d. split; [done|]. by apply bool_decide_spec in Hon.
  - intros [Hin (d & -> & Hday)]. split; [|done].
    by apply bool_decide_spec.
Qed.

(** The week view keeps a task for a day only if it has a due date, so an
    undated task reaches neither the allocator nor the all-day strip: the
    [!task.dueDate] branch of the all-day filter is never taken there. *)
Lemma undated_task_dropped (date : Date) (tasks : list Task) (t : Task) :
  dueDate t = None →
  (t ∉ dayTasks localOffset date tasks)
  ∧ (t ∉ timedTasks localOffset date tasks)
  ∧ (t ∉ allDayTasks localOffset date tasks).
Proof.
  intros Hnone.
  assert (t ∉ dayTasks localOffset date tasks) as Hday.
  { rewrite elem_of_dayTasks. intros (_ & d & Hd & _). congruence. }
  split_and!; [done|..]; unfold timedTasks, allDayTasks;
    rewrite list_elem_of_filter; tauto.
Qed.

(** The allocator returns the items it was given, each once. *)
Lemma elem_of_allocateTimed (l : list TimedItem) (x : TimedItem) :
  (∃ p, p ∈ allocateTimed l ∧ item p = x) ↔ x ∈ l.
Proof.
  rewrite <- (sortedItems_Permutation ti_startTime l).
  rewrite <- (allocateLanes_items ti_startTime ti_endTime l).
  rewrite list_elem_of_fmap. unfold allocateTimed. split.
  - intros (p & Hp & <-). by exists p.
  - intros (p & -> & Hp). by exists p.
Qed.

(** C10.  In the week view, among the tasks due on the displayed day, a
    task goes to the lane allocator exactly when the hour of its due date is
    between 6 and 23, and to the all-day strip exactly when it is not; the
    task items that the allocator returns are those tasks and no others. *)
Theorem week_view_timed_window (date : Date) (tasks : list Task)
    (events : list Event) :
  (∀ t d, t ∈ dayTasks localOffset date tasks → dueDate t = Some d →
     (t ∈ timedTasks localOffset date tasks
        ↔ START_HOUR ≤ hourOf d ≤ END_HOUR)
     ∧ (t ∈ allDayTasks localOffset date tasks
        ↔ ¬ (START_HOUR ≤ hourOf d ≤ END_HOUR)))
  ∧ (∀ p, p ∈ timedItemsWithLanes localOffset date tasks events →
       ti_type (item p) = task →
       ∃ t d, t ∈ tasks ∧ dueDate t = Some d ∧ dayOf d = dayOf date
              ∧ item p = taskItem t
              ∧ START_HOUR ≤ hourOf d ≤ END_HOUR)
  ∧ (∀ t d, t ∈ tasks → dueDate t = Some d → dayOf d = dayOf date →
       START_HOUR ≤ hourOf d ≤ END_HOUR →
       ∃ p, p ∈ timedItemsWithLanes localOffset date tasks events
            ∧ item p = taskItem t).
Proof.
  split_and!.
  - intros t d Hday Hd. unfold timedTasks, allDayTasks.
    rewrite !list_elem_of_filter.
    pose proof (isTimedTask_spec t d Hd) as Htimed.
    pose proof (isAllDayTask_spec t d Hd) as Hallday.
    tauto.
  - intros p Hp Htype. unfold timedItemsWithLanes in Hp.
    assert (item p ∈ timedItems localOffset date tasks events) as Hin.
    { apply elem_of_allocateTimed. by exists p. }
    unfold timedItems in Hin. apply elem_of_app in Hin as [Hev|Htk].
    + apply list_elem_of_fmap in Hev as (ev & Heq & _).
      rewrite Heq in Htype. discriminate.
    + apply list_elem_of_fmap in Htk as (t & Heq & Ht).
      unfold timedTasks in Ht. apply list_elem_of_filter in Ht as [Htimed Ht].
      apply elem_of_dayTasks in Ht as (Ht & d & Hd & Hday).
      apply (isTimedTask_spec t d Hd) in Htimed.
      exists t, d. split_and!; first [done|lia].
  - intros t d Ht Hd Hday Hhour. unfold timedItemsWithLanes.
    apply elem_of_allocateTimed. unfold timedItems.
    apply elem_of_app. right. apply list_elem_of_fmap_2.
    unfold timedTasks. apply list_elem_of_filter. split.
    + by apply (isTimedTask_spec t d Hd).
    + apply elem_of_dayTasks. split; [done|]. by exists d.
Qed.
End WeekViewFacts.

(** A task due at 03:00 UTC and one due at 10:00 UTC on the same day, seen
    from a browser on UTC. *)
Lemma week_view_timed_window_witness :
  sampleTask ∈ timedTasks (λ _, 0) 1735689600000 [sampleTask]
  ↔ START_HOUR ≤ getHours (λ _, 0) 1735725600000 ≤ END_HOUR.
Proof.
  destruct (week_view_timed_window (λ _, 0) 1735689600000 [sampleTask] [])
    as (Hsplit & _).
  destruct (Hsplit sampleTask 1735725600000) as [Htimed _].
  - vm_compute. apply list_elem_of_here.
  - reflexivity.
  - exact Htimed.
Defined.

(* ===================================================================== *)
(** * More on the lane allocator *)
(* ===================================================================== *)

(** The lane search never passes the number of lanes in use. *)
Lemma firstFreeLane_le_length (used : list nat) :
  (firstFreeLane used ≤ length used)%nat.
Proof.
  destruct (firstFreeLane_spec used) as [_ Hbelow].
  rewrite <- (length_seq (firstFreeLane used) 0).
  apply submseteq_length, NoDup_submseteq; [apply NoDup_seq|].
  intros n Hn. apply elem_of_seq in Hn. apply Hbelow. lia.
Qed.

Lemma firstFreeLane_seq (k : nat) : firstFreeLane (seq 0 k) = k.
Proof.
  destruct (firstFreeLane_spec (seq 0 k)) as [Hfree Hbelow].
  destruct (decide (firstFreeLane (seq 0 k) < k)%nat) as [Hlt|Hge].
  - exfalso. apply Hfree. apply elem_of_seq. lia.
  - destruct (decide (k < firstFreeLane (seq 0 k))%nat) as [Hgt|]; [|lia].
    specialize (Hbelow k Hgt). apply elem_of_seq in Hbelow. lia.
Qed.

Lemma filter_all {A} (P : A → Prop) `{∀ x, Decision (P x)} (l : list A) :
  (∀ x, x ∈ l → P x) → filter P l = l.
Proof.
  induction l as [|x l IH]; intros Hall; [done|].
  rewrite filter_cons, decide_True by (apply Hall; left).
  f_equal. apply IH. intros y Hy. apply Hall. by right.
Qed.

Lemma filter_none {A} (P : A → Prop) `{∀ x, Decision (P x)} (l : list A) :
  (∀ x, x ∈ l → ¬ P x) → filter P l = [].
Proof.
  induction l as [|x l IH]; intros Hnone; [done|].
  rewrite filter_cons, decide_False by (apply Hnone; left).
  apply IH. intros y Hy. apply Hnone. by right.
Qed.

Section LaneAllocatorMore.
Context {T : Type}.
Variable startTime : T → Z.
Variable endTime : T → option Z.

Abbreviation conflicts' := (conflictsWith startTime endTime).
Abbreviation place' := (placeItem startTime endTime).
Abbreviation sorted' := (sortedItems startTime).
Abbreviation allocate' := (allocateLanes startTime endTime).
Abbreviation overlaps' := (overlap startTime endTime).
Abbreviation byStart := (λ a b : T, startTime a ≤ startTime b).
Abbreviation AloneIsWide' := (AloneIsWide startTime endTime).

Lemma allocateLanes_length (items : list T) :
  length (allocate' items) = length items.
Proof.
  rewrite <- (length_fmap item), allocateLanes_items.
  by rewrite (sortedItems_Permutation startTime items).
Qed.

(** X1.  The allocator places every item it is given exactly once, and
    returns them ordered by start time. *)
Theorem allocateLanes_sorted_permutation (items : list T) :
  item <$> allocateLanes startTime endTime items ≡ₚ items
  ∧ Sorted (λ a b, startTime a ≤ startTime b)
      (item <$> allocateLanes startTime endTime items)
  ∧ length (allocateLanes startTime endTime items) = length items.
Proof.
  rewrite allocateLanes_items. split_and!.
  - apply sortedItems_Permutation.
  - apply sortedItems_Sorted.
  - apply allocateLanes_length.
Qed.

Lemma placeItem_CountsInRange (positioned : list (Positioned T)) (x : T) :
  CountsInRange positioned → CountsInRange (place' positioned x).
Proof.
  intros Hinv p Hp. rewrite placeItem_length.
  unfold placeItem in Hp.
  set (cs := filter (conflicts' x) positioned) in *.
  set (newLane := firstFreeLane (lane <$> cs)) in *.
  set (m := Math_max (newLane + 1) (maxLanes <$> cs)) in *.
  destruct (Math_max_spec (newLane + 1) (maxLanes <$> cs))
    as (Hfirst & Hrest & Hattained). fold m in Hfirst, Hrest, Hattained.
  assert (newLane ≤ length positioned)%nat as Hnew.
  { pose proof (firstFreeLane_le_length (lane <$> cs)) as Hle.
    rewrite length_fmap in Hle.
    pose proof (length_filter (conflicts' x) positioned). unfold cs in *. lia. }
  assert (m ≤ S (length positioned))%nat as Hm.
  { destruct Hattained as [->|Hin]; [lia|].
    apply list_elem_of_fmap in Hin as (c & -> & Hc).
    apply list_elem_of_filter in Hc as [_ Hc].
    specialize (Hinv c Hc). lia. }
  apply elem_of_app in Hp as [Hold|Hnew'].
  - apply list_elem_of_fmap in Hold as (e & -> & He).
    specialize (Hinv e He). case_decide as Hc; simpl; [|lia].
    assert (maxLanes e ≤ m)%nat; [|lia].
    apply Hrest. apply list_elem_of_fmap_2. by apply list_elem_of_filter.
  - apply list_elem_of_singleton in Hnew' as ->. simpl. lia.
Qed.

Lemma foldl_placeItem_CountsInRange (l : list T)
    (acc : list (Positioned T)) :
  CountsInRange acc → CountsInRange (foldl place' acc l).
Proof.
  revert acc. induction l as [|x l IH]; intros acc Hacc; simpl; [done|].
  apply IH. by apply placeItem_CountsInRange.
Qed.

(** X2.  In the output, the lane of the item in position [j] is at most
    [j] and below the item's [maxLanes], which is at most the number of
    items: [left = lane / maxLanes] is below 100% and [width] is at least
    the share of one item. *)
Theorem lane_within_count (items : list T) (j : nat) (p : Positioned T) :
  allocate' items !! j = Some p →
  (lane p ≤ j)%nat ∧ (lane p < maxLanes p)%nat
  ∧ (maxLanes p ≤ length items)%nat.
Proof.
  intros Hj. split.
  - rewrite (allocateLanes_FirstFit startTime endTime items j p Hj).
    etrans; [apply firstFreeLane_le_length|].
    rewrite length_fmap.
    etrans; [apply length_filter|].
    rewrite length_take. lia.
  - assert (CountsInRange (allocate' items)) as Hinv.
    { apply foldl_placeItem_CountsInRange. intros q Hq.
      by apply elem_of_nil in Hq. }
    specialize (Hinv p (list_elem_of_lookup_2 _ _ _ Hj)).
    rewrite allocateLanes_length in Hinv. lia.
Qed.

Lemma placeItem_AloneIsWide (positioned : list (Positioned T)) (x : T) :
  AloneIsWide' positioned → AloneIsWide' (place' positioned x).
Proof.
  intros Hinv j b Hj Halone.
  pose proof (lookup_lt_Some _ _ _ Hj) as Hlen.
  rewrite placeItem_length in Hlen.
  destruct (placeItem_step startTime endTime positioned x) as [Hnew Hold].
  destruct (decide (j < length positioned)%nat) as [Hlt|Hge].
  - destruct (lookup_lt_is_Some_2 positioned j Hlt) as [e He].
    rewrite (Hold j e He) in Hj. injection Hj as <-.
    assert (¬ conflicts' x e) as Hfree.
    { intros Hc. apply (Halone (length positioned) _ ltac:(lia) Hnew).
      simpl. apply conflictsWith_overlap in Hc.
      apply overlap_sym. by case_decide. }
    rewrite decide_False in Halone |- * by done.
    apply (Hinv j e He). intros i a Hij Hi.
    specialize (Halone i _ Hij (Hold i a Hi)).
    by case_decide.
  - assert (j = length positioned) as -> by lia.
    rewrite Hnew in Hj. injection Hj as <-. simpl.
    assert (filter (conflicts' x) positioned = []) as ->.
    { apply filter_none. intros e He Hc.
      apply list_elem_of_lookup in He as [i Hi].
      apply (Halone i _ ltac:(apply lookup_lt_Some in Hi; lia) (Hold i e Hi)).
      simpl. apply conflictsWith_overlap in Hc. by case_decide. }
    done.
Qed.

Lemma foldl_placeItem_AloneIsWide (l : list T) (acc : list (Positioned T)) :
  AloneIsWide' acc → AloneIsWide' (foldl place' acc l).
Proof.
  revert acc. induction l as [|x l IH]; intros acc Hacc; simpl; [done|].
  apply IH. by apply placeItem_AloneIsWide.
Qed.

(** X3.  An item whose effective interval overlaps that of no other item
    of the output is on lane 0 with [maxLanes = 1]: it is drawn at full
    width.  A single item is the extreme case. *)
Theorem isolated_item_full_width (items : list T) (j : nat)
    (b : Positioned T) :
  allocate' items !! j = Some b →
  (∀ i a, i ≠ j → allocate' items !! i = Some a →
          ¬ overlaps' (item a) (item b)) →
  lane b = 0%nat ∧ maxLanes b = 1%nat.
Proof.
  apply foldl_placeItem_AloneIsWide. intros j' b' Hj'.
  by rewrite lookup_nil in Hj'.
Qed.

Lemma Staircase_lanes (l : list (Positioned T)) :
  Staircase l → lane <$> l = seq 0 (length l).
Proof.
  intros Hst. apply list_eq. intros j.
  rewrite list_lookup_fmap.
  destruct (l !! j) as [p|] eqn:Hp; simpl.
  - destruct (Hst j p Hp) as [-> _]. symmetry.
    apply lookup_seq. split; [done|]. by eapply lookup_lt_Some.
  - symmetry. apply lookup_seq_ge. by apply lookup_ge_None.
Qed.

Lemma placeItem_Staircase (positioned : list (Positioned T)) (x : T) :
  (∀ e, e ∈ positioned → conflicts' x e) →
  Staircase positioned → Staircase (place' positioned x).
Proof.
  intros Hall Hst.
  destruct (placeItem_step startTime endTime positioned x) as [Hnew Hold].
  rewrite (filter_all _ _ Hall) in Hnew, Hold.
  rewrite (Staircase_lanes _ Hst), firstFreeLane_seq in Hnew, Hold.
  set (k := length positioned) in *.
  assert (Math_max (k + 1) (maxLanes <$> positioned) = S k) as Hm.
  { destruct (Math_max_spec (k + 1) (maxLanes <$> positioned))
      as (Hfirst & _ & [->|Hin]); [lia|].
    apply list_elem_of_fmap in Hin as (c & Hc & Hin).
    apply list_elem_of_lookup in Hin as [i Hi].
    destruct (Hst i c Hi) as [_ Hcount]. fold k in Hcount. lia. }
  rewrite Hm in Hnew, Hold.
  intros j p Hj. rewrite placeItem_length. fold k.
  pose proof (lookup_lt_Some _ _ _ Hj) as Hlen.
  rewrite placeItem_length in Hlen. fold k in Hlen.
  destruct (decide (j < k)%nat) as [Hlt|Hge].
  - destruct (lookup_lt_is_Some_2 positioned j Hlt) as [e He].
    rewrite (Hold j e He) in Hj. injection Hj as <-.
    rewrite decide_True
      by (apply Hall; by eapply list_elem_of_lookup_2).
    simpl. by destruct (Hst j e He) as [-> _].
  - assert (j = k) as -> by lia.
    rewrite Hnew in Hj. by injection Hj as <-.
Qed.

Lemma foldl_placeItem_Staircase (l : list T) (acc : list (Positioned T)) :
  (∀ a b, a ∈ (item <$> acc) ++ l → b ∈ (item <$> acc) ++ l →
          overlaps' a b) →
  Staircase acc → Staircase (foldl place' acc l).
Proof.
  revert acc. induction l as [|x l IH]; intros acc Hall Hacc; simpl; [done|].
  apply IH.
  - intros a b Ha Hb. rewrite placeItem_items, <- app_assoc in Ha, Hb.
    by apply Hall.
  - apply placeItem_Staircase; [|done].
    intros e He. apply conflictsWith_overlap. apply Hall.
    + apply elem_of_app. left. by apply list_elem_of_fmap_2.
    + apply elem_of_app. right. left.
Qed.

(** X4.  Items that all overlap one another (each pair, and each item
    with itself, as items with one common interval do) are stacked side by
    side: the item in position [j] of the output is on lane [j], and every
    item reports as many lanes as there are items. *)
Theorem mutually_overlapping_staircase (items : list T) (j : nat)
    (p : Positioned T) :
  (∀ a b, a ∈ items → b ∈ items → overlaps' a b) →
  allocate' items !! j = Some p →
  lane p = j ∧ maxLanes p = length items.
Proof.
  intros Hall Hj. rewrite <- allocateLanes_length.
  revert j p Hj. apply foldl_placeItem_Staircase.
  - simpl. intros a b Ha Hb. apply Hall.
    + by rewrite <- (sortedItems_Permutation startTime items).
    + by rewrite <- (sortedItems_Permutation startTime items).
  - intros j p Hj. by rewrite lookup_nil in Hj.
Qed.

#[local] Instance byStart_transitive : Transitive byStart.
Proof. intros a b c. lia. Qed.

(** X5.  When no two different items start at the same time, the layout
    does not depend on the order in which the items are given. *)
Theorem allocateLanes_order_independent (items items' : list T) :
  items ≡ₚ items' →
  (∀ a b, a ∈ items → b ∈ items → startTime a = startTime b → a = b) →
  allocateLanes startTime endTime items
  = allocateLanes startTime endTime items'.
Proof.
  intros Hperm Hdistinct. unfold allocateLanes. f_equal.
  apply (Sorted_unique_strong byStart).
  - intros a b Ha Hb Hab Hba.
    rewrite (sortedItems_Permutation startTime items) in Ha.
    rewrite (sortedItems_Permutation startTime items'), <- Hperm in Hb.
    apply Hdistinct; [done|done|lia].
  - apply sortedItems_Sorted.
  - apply sortedItems_Sorted.
  - by rewrite !sortedItems_Permutation.
Qed.
End LaneAllocatorMore.

(** ** How far the lane count reaches *)

Section LaneCountFacts.
Context {T : Type}.
Variable startTime : T → Z.
Variable endTime : T → option Z.

Abbreviation conflicts'' := (conflictsWith startTime endTime).
Abbreviation place'' := (placeItem startTime endTime).
Abbreviation overlaps'' := (overlap startTime endTime).
Abbreviation neighbours := (directlyOverlap startTime endTime).
Abbreviation cluster := (sameCluster startTime endTime).
Abbreviation Covers := (CoversNeighbours startTime endTime).
Abbreviation InUse := (CountInUse startTime endTime).

(** What a placement leaves of a placed item: the item and its lane, and
    a count that has not gone down and is the new one for a conflict. *)
Lemma placeItem_old (positioned : list (Positioned T)) (x : T) (i : nat)
    (e : Positioned T) :
  positioned !! i = Some e →
  ∃ e', place'' positioned x !! i = Some e'
    ∧ item e' = item e ∧ lane e' = lane e
    ∧ (maxLanes e ≤ maxLanes e')%nat
    ∧ (conflicts'' x e →
       ∃ newLane, place'' positioned x !! length positioned
                  = Some (mkPositioned x newLane (maxLanes e'))
                  ∧ (newLane < maxLanes e')%nat).
Proof.
  intros Hi.
  destruct (placeItem_step startTime endTime positioned x) as [Hnew Hold].
  set (cs := filter (conflicts'' x) positioned) in *.
  set (newLane := firstFreeLane (lane <$> cs)) in *.
  destruct (Math_max_spec (newLane + 1) (maxLanes <$> cs))
    as (Hfirst & Hrest & _).
  rewrite (Hold i e Hi). eexists. split; [done|].
  destruct (decide (conflicts'' x e)) as [Hc|Hc]; simpl.
  - assert (maxLanes e ≤ Math_max (newLane + 1) (maxLanes <$> cs))%nat.
    { apply Hrest, list_elem_of_fmap_2, list_elem_of_filter.
      split; [done|]. by eapply list_elem_of_lookup_2. }
    split_and!; try done. intros _. exists newLane. split; [done|lia].
  - split_and!; try done.
Qed.

Lemma placeItem_CoversNeighbours (positioned : list (Positioned T)) (x : T) :
  CountsInRange positioned →
  Covers positioned → Covers (place'' positioned x).
Proof.
  intros Hrange Hinv i j a' b' Hij Hi Hj Hov.
  pose proof (lookup_lt_Some _ _ _ Hi) as Hli.
  pose proof (lookup_lt_Some _ _ _ Hj) as Hlj.
  rewrite placeItem_length in Hli, Hlj.
  destruct (decide (i < length positioned)%nat) as [Hi'|Hi'];
    destruct (decide (j < length positioned)%nat) as [Hj'|Hj']; [| | |lia].
  - destruct (lookup_lt_is_Some_2 positioned i Hi') as [a Ha].
    destruct (lookup_lt_is_Some_2 positioned j Hj') as [b Hb].
    destruct (placeItem_old positioned x i a Ha)
      as (a0 & Ha0 & Hia & Hla & _).
    destruct (placeItem_old positioned x j b Hb)
      as (b0 & Hb0 & Hib & _ & Hmb & _).
    rewrite Hi in Ha0. injection Ha0 as <-.
    rewrite Hj in Hb0. injection Hb0 as <-.
    rewrite Hia, Hib in Hov.
    specialize (Hinv i j a b Hij Ha Hb Hov). lia.
  - assert (j = length positioned) as -> by lia.
    destruct (lookup_lt_is_Some_2 positioned i Hi') as [a Ha].
    destruct (placeItem_old positioned x i a Ha)
      as (a0 & Ha0 & Hia & Hla & Hma & Hnew).
    rewrite Hi in Ha0. injection Ha0 as <-.
    destruct Hnew as (newLane & Hnew & _).
    { apply conflictsWith_overlap. rewrite <- Hia.
      destruct (placeItem_step startTime endTime positioned x) as [Hx _].
      rewrite Hj in Hx. injection Hx as ->. done. }
    rewrite Hj in Hnew. injection Hnew as ->. simpl.
    specialize (Hrange a (list_elem_of_lookup_2 _ _ _ Ha)). lia.
  - assert (i = length positioned) as -> by lia.
    destruct (lookup_lt_is_Some_2 positioned j Hj') as [b Hb].
    destruct (placeItem_old positioned x j b Hb)
      as (b0 & Hb0 & Hib & _ & _ & Hnew).
    rewrite Hj in Hb0. injection Hb0 as <-.
    destruct (placeItem_step startTime endTime positioned x) as [Hx _].
    rewrite Hi in Hx. injection Hx as ->. simpl in Hov.
    destruct Hnew as (newLane & Hnew & Hlt).
    { apply conflictsWith_overlap. rewrite <- Hib. by apply overlap_sym. }
    rewrite Hi in Hnew. injection Hnew as <-. done.
Qed.

Lemma cluster_grows (xs : list T) (x a b : T) :
  cluster xs a b → cluster (xs ++ [x]) a b.
Proof.
  apply rtc_subrel. intros u v (Hu & Hv & Hov). unfold directlyOverlap.
  split_and!; [apply elem_of_app; by left|apply elem_of_app; by left|done].
Qed.

Lemma placeItem_CountInUse (positioned : list (Positioned T)) (x : T) :
  InUse positioned → InUse (place'' positioned x).
Proof.
  intros Hinv.
  destruct (placeItem_step startTime endTime positioned x) as [Hnew Hold].
  set (cs := filter (conflicts'' x) positioned) in *.
  set (newLane := firstFreeLane (lane <$> cs)) in *.
  set (m := Math_max (newLane + 1) (maxLanes <$> cs)) in *.
  set (new := mkPositioned x newLane m) in *.
  assert (new ∈ place'' positioned x) as Hnew_in
    by (by eapply list_elem_of_lookup_2).
  (* every placed item is still there, with its item and its lane *)
  assert (∀ c, c ∈ positioned →
            ∃ c', c' ∈ place'' positioned x
                  ∧ item c' = item c ∧ lane c' = lane c) as Hkept.
  { intros c Hc. apply list_elem_of_lookup in Hc as [k Hk].
    eexists. split; [eapply list_elem_of_lookup_2, (Hold k c Hk)|].
    by case_decide. }
  assert (x ∈ item <$> place'' positioned x) as Hx_in.
  { rewrite placeItem_items. apply elem_of_app. right. left. }
  assert (∀ c, c ∈ positioned → item c ∈ item <$> place'' positioned x)
    as Hitem_in.
  { intros c Hc. rewrite placeItem_items. apply elem_of_app. left.
    by apply list_elem_of_fmap_2. }
  (* the new count is in use in the cluster of the new item *)
  assert (∃ c, c ∈ place'' positioned x
               ∧ cluster (item <$> place'' positioned x) x (item c)
               ∧ m = S (lane c)) as Hm.
  { destruct (Math_max_spec (newLane + 1) (maxLanes <$> cs))
      as (_ & _ & [Heq|Hin]).
    - exists new. split; [done|]. split; [apply rtc_refl|].
      unfold m. rewrite Heq. simpl. lia.
    - apply list_elem_of_fmap in Hin as (c0 & Hc0 & Hin).
      apply list_elem_of_filter in Hin as [Hconf Hin].
      destruct (Hinv c0 Hin) as (c1 & Hc1 & Hchain & Hcount).
      destruct (Hkept c1 Hc1) as (c1' & Hc1' & Hitem & Hlane).
      exists c1'. split; [done|]. split.
      + rewrite Hitem. apply (rtc_l _ _ (item c0)).
        * unfold directlyOverlap. split_and!; [done|by apply Hitem_in|].
          apply overlap_sym. by apply conflictsWith_overlap.
        * rewrite placeItem_items. by apply cluster_grows.
      + fold m in Hc0. rewrite Hlane. congruence. }
  intros b' Hb'. apply list_elem_of_lookup in Hb' as [k Hk].
  pose proof (lookup_lt_Some _ _ _ Hk) as Hlen.
  rewrite placeItem_length in Hlen.
  destruct (decide (k < length positioned)%nat) as [Hlt|Hge].
  - destruct (lookup_lt_is_Some_2 positioned k Hlt) as [e He].
    rewrite (Hold k e He) in Hk. injection Hk as <-.
    destruct (decide (conflicts'' x e)) as [Hc|Hc]; simpl.
    + destruct Hm as (c & Hc_in & Hchain & Hcount).
      exists c. split; [done|]. split; [|done].
      apply (rtc_l _ _ x); [|exact Hchain].
      unfold directlyOverlap.
      split_and!; [apply Hitem_in; by eapply list_elem_of_lookup_2|done|].
      by apply conflictsWith_overlap.
    + pose proof (list_elem_of_lookup_2 _ _ _ He) as He_in.
      destruct (Hinv e He_in) as (c & Hc_in & Hchain & Hcount).
      destruct (Hkept c Hc_in) as (c' & Hc' & Hitem & Hlane).
      exists c'. split; [done|]. split.
      * rewrite Hitem, placeItem_items. by apply cluster_grows.
      * by rewrite Hlane.
  - assert (k = length positioned) as -> by lia.
    rewrite Hnew in Hk. injection Hk as <-. exact Hm.
Qed.

Lemma foldl_placeItem_counts (l : list T) (acc : list (Positioned T)) :
  CountsInRange acc → Covers acc → InUse acc →
  Covers (foldl place'' acc l) ∧ InUse (foldl place'' acc l).
Proof.
  revert acc. induction l as [|x l IH]; intros acc Hrange Hcov Huse;
    simpl; [done|].
  apply IH.
  - by apply placeItem_CountsInRange.
  - by apply placeItem_CoversNeighbours.
  - by apply placeItem_CountInUse.
Qed.

Lemma allocateLanes_counts (items : list T) :
  Covers (allocateLanes startTime endTime items)
  ∧ InUse (allocateLanes startTime endTime items).
Proof.
  apply foldl_placeItem_counts.
  - intros p Hp. by apply elem_of_nil in Hp.
  - intros i j a b _ Hi. by rewrite lookup_nil in Hi.
  - intros b Hb. by apply elem_of_nil in Hb.
Qed.

Lemma cluster_of_output (items : list T) (a b : T) :
  cluster (item <$> allocateLanes startTime endTime items) a b →
  cluster items a b.
Proof.
  apply rtc_subrel. intros u v (Hu & Hv & Hov).
  rewrite allocateLanes_items in Hu, Hv.
  rewrite (sortedItems_Permutation startTime items) in Hu, Hv.
  unfold directlyOverlap. by split_and!.
Qed.
End LaneCountFacts.

(** C1, amended.  On the chain A, B, C the three items report the same
    [maxLanes], and it is 2.  In general, after allocation the [maxLanes]
    of every item is above the item's own lane and above the lane of every
    item that directly overlaps it, whichever of the two was placed first
    (the count goes back to the conflicts placed earlier), and it is one
    more than the lane of some item of its transitive overlap cluster (it
    counts no lane that the cluster does not use). *)
Theorem laneCount_reaches_neighbours :
  maxLanes <$> allocateTimed [itemA; itemB; itemC] = [2; 2; 2]%nat
  ∧ ∀ (T : Type) (startTime : T → Z) (endTime : T → option Z)
      (items : list T) (j : nat) (b : Positioned T),
    allocateLanes startTime endTime items !! j = Some b →
    (lane b < maxLanes b)%nat
    ∧ (∀ i a, i ≠ j →
         allocateLanes startTime endTime items !! i = Some a →
         overlap startTime endTime (item a) (item b) →
         (lane a < maxLanes b)%nat)
    ∧ (∃ c, c ∈ allocateLanes startTime endTime items
            ∧ sameCluster startTime endTime items (item b) (item c)
            ∧ maxLanes b = S (lane c)).
Proof.
  split; [vm_compute; reflexivity|].
  intros T startTime endTime items j b Hj.
  destruct (allocateLanes_counts startTime endTime items) as [Hcov Huse].
  pose proof (list_elem_of_lookup_2 _ _ _ Hj) as Hb.
  split_and!.
  - assert (CountsInRange (allocateLanes startTime endTime items)) as Hrange.
    { apply foldl_placeItem_CountsInRange. intros q Hq.
      by apply elem_of_nil in Hq. }
    specialize (Hrange b Hb). lia.
  - intros i a Hij Hi Hov. by apply (Hcov i j a b).
  - destruct (Huse b Hb) as (c & Hc & Hchain & Hcount).
    exists c. split; [done|]. split; [|done].
    by apply cluster_of_output.
Qed.

(** B is above the lane of A, which was placed before it, and of C, which
    was placed after it. *)
Lemma laneCount_reaches_neighbours_witness :
  (lane (mkPositioned itemA 0 2) < maxLanes (mkPositioned itemB 1 2))%nat
  ∧ (lane (mkPositioned itemC 0 2) < maxLanes (mkPositioned itemB 1 2))%nat.
Proof.
  destruct laneCount_reaches_neighbours as [_ Hgen].
  destruct (Hgen TimedItem ti_startTime ti_endTime [itemA; itemB; itemC]
              1%nat (mkPositioned itemB 1 2)) as (_ & Hcov & _);
    [reflexivity|].
  split.
  - apply (Hcov 0%nat (mkPositioned itemA 0 2)); [lia|reflexivity|].
    vm_compute. split; reflexivity.
  - apply (Hcov 2%nat (mkPositioned itemC 0 2)); [lia|reflexivity|].
    vm_compute. split; reflexivity.
Defined.

Lemma lane_within_count_witness :
  (1 ≤ 1)%nat ∧ (1 < 2)%nat ∧ (2 ≤ length [itemA; itemB; itemC])%nat.
Proof.
  apply (lane_within_count ti_startTime ti_endTime [itemA; itemB; itemC]
           1 (mkPositioned itemB 1 2)).
  reflexivity.
Defined.

Lemma isolated_item_full_width_witness :
  allocateTimed [itemA; itemE] !! 1%nat = Some (mkPositioned itemE 0 1)
  ∧ lane (mkPositioned itemE 0 1) = 0%nat
  ∧ maxLanes (mkPositioned itemE 0 1) = 1%nat.
Proof.
  split; [reflexivity|].
  apply (isolated_item_full_width ti_startTime ti_endTime [itemA; itemE] 1).
  - reflexivity.
  - intros i a Hi Ha.
    destruct i as [|[|i]]; [|done|by vm_compute in Ha].
    vm_compute in Ha. injection Ha as <-.
    vm_compute. intros [_ Hlt]. discriminate.
Defined.

Lemma mutually_overlapping_staircase_witness :
  lane (mkPositioned itemB 1 2) = 1%nat
  ∧ maxLanes (mkPositioned itemB 1 2) = length [itemA; itemB].
Proof.
  apply (mutually_overlapping_staircase ti_startTime ti_endTime
           [itemA; itemB] 1).
  - intros a b Ha Hb.
    apply elem_of_cons in Ha as [->|Ha];
      [|apply list_elem_of_singleton in Ha as ->];
      (apply elem_of_cons in Hb as [->|Hb];
        [|apply list_elem_of_singleton in Hb as ->]);
      vm_compute; split; reflexivity.
  - reflexivity.
Defined.

Lemma allocateLanes_order_independent_witness :
  allocateTimed [itemA; itemB] = allocateTimed [itemB; itemA].
Proof.
  apply (allocateLanes_order_independent ti_startTime ti_endTime).
  - apply Permutation_swap.
  - intros a b Ha Hb.
    apply elem_of_cons in Ha as [->|Ha];
      [|apply list_elem_of_singleton in Ha as ->];
      (apply elem_of_cons in Hb as [->|Hb];
        [|apply list_elem_of_singleton in Hb as ->]);
      first [done | vm_compute; discriminate].
Defined.

(** With equal start times the order of the input shows: the item given
    first takes lane 0. *)
Example allocate_ties_follow_input :
  let x := mkTimedItem "x" task (minutes 0) None in
  let y := mkTimedItem "y" task (minutes 0) None in
  (λ p, (ti_id (item p), lane p)) <$> allocateTimed [x; y]
  = [("x", 0%nat); ("y", 1%nat)]
  ∧ (λ p, (ti_id (item p), lane p)) <$> allocateTimed [y; x]
    = [("y", 0%nat); ("x", 1%nat)].
Proof. vm_compute. split; reflexivity. Qed.

(* ===================================================================== *)
(** * More on the store and the handlers *)
(* ===================================================================== *)

(** None of the inherited names is a key of the two tables. *)
Lemma Object_prototype_properties_not_keys :
  ∀ k, k ∈ Object_prototype_properties →
    basePriorityMultipliers !! k = None ∧ domainMultipliers !! k = None.
Proof.
  intros k Hk. unfold Object_prototype_properties in Hk.
  repeat (apply elem_of_cons in Hk as [->|Hk]; [by vm_compute|]).
  by apply elem_of_nil in Hk.
Qed.

Section ServerFacts.
Variable parseFloat : string → float.
Variable Number_toString : float → string.
Variable Date_parse : string → JSDate.
Variable multipleOf : float → float → bool.

Abbreviation patch' :=
  (patchTask parseFloat Number_toString Date_parse multipleOf).
Abbreviation post' := (postTask Number_toString Date_parse multipleOf).
Abbreviation parseUpdate' := (clientUpdateTaskSchema_parse multipleOf).
Abbreviation parseCreate' := (clientTaskSchema_parse multipleOf).
Abbreviation serverFormat' := (toUpdateData Number_toString Date_parse).
Abbreviation handle' :=
  (handle parseFloat Number_toString Date_parse multipleOf).
Abbreviation serve' :=
  (serve parseFloat Number_toString Date_parse multipleOf).

(** What the second validation hands to [updateTask]. *)
Lemma serverFormat_parse (now : Date) (v : ClientUpdateTask)
    (u : UpdateTask) :
  updateTaskSchema_parse (serverFormat' now v) = Some u →
  ut_isCompleted u = cu_isCompleted v
  ∧ ut_completedAt u
    = (if default false (cu_isCompleted v) then Some (Some now) else None)
  ∧ ut_actualHours u
    = match cu_actualHours v with
      | Some n =>
          if truthyNumber n then Some (Some (Number_toString n)) else None
      | None => None
      end
  ∧ ut_priority u = cu_priority v
  ∧ ut_domain u = cu_domain v.
Proof.
  unfold updateTaskSchema_parse, toUpdateData. simpl.
  destruct (cu_dueDate v) as [s|];
    [destruct (truthyString s); [destruct (Date_parse s)|]|];
    destruct (default false (cu_isCompleted v)); simpl;
    try discriminate;
    intros Hparse; injection Hparse as <-; simpl;
    split_and!; try done;
    by destruct (cu_actualHours v) as [n|]; [destruct (truthyNumber n)|].
Qed.

(** The validated update carries what the body holds under a key. *)
Lemma parseUpdate_keys (req_body : gmap string JSON) (v : ClientUpdateTask) :
  parseUpdate' req_body = Some v →
  optionalKey z_boolean req_body "isCompleted" = Some (cu_isCompleted v)
  ∧ optionalKey (z_number multipleOf 0.1 100 0.1) req_body "actualHours"
    = Some (cu_actualHours v)
  ∧ optionalKey (z_number multipleOf 0.5 24 0.5) req_body "estimatedHours"
    = Some (cu_estimatedHours v).
Proof.
  unfold clientUpdateTaskSchema_parse. intros Hparse.
  repeat match type of Hparse with
         | context [optionalKey ?sch ?bd ?k] =>
             let E := fresh "E" in
             destruct (optionalKey sch bd k) eqn:E; simpl in Hparse;
             [|discriminate]
         end.
  by injection Hparse as <-.
Qed.

(** The task that an accepted PATCH stores. *)
Lemma patched_task_shape (now : Date) (t : Task) (v : ClientUpdateTask)
    (u : UpdateTask) :
  updateTaskSchema_parse (serverFormat' now v) = Some u →
  ¬ (cu_isCompleted v = Some false ∧ isCompleted t = true) →
  let t' := mergeTask t u (calculateRewards parseFloat t u) now in
  id t' = id t ∧ userId t' = userId t ∧ createdAt t' = createdAt t
  ∧ (isCompleted t = true →
     isCompleted t' = true ∧ xpReward t' = xpReward t
     ∧ euReward t' = euReward t)
  ∧ (isCompleted t' = false →
     isCompleted t = false ∧ xpReward t' = xpReward t
     ∧ euReward t' = euReward t ∧ completedAt t' = completedAt t)
  ∧ (isCompleted t' = true →
     (is_Some (completedAt t) → is_Some (completedAt t'))
     ∧ (is_Some (actualHours t) → is_Some (actualHours t'))
     ∧ (isCompleted t = false →
        is_Some (completedAt t') ∧ is_Some (actualHours t')))
  ∧ (completedAt t' = completedAt t
     ∨ completedAt t' = Some now ∧ cu_isCompleted v = Some true).
Proof.
  intros Hu Hguard.
  destruct (serverFormat_parse _ _ _ Hu) as (Hcomp & Hat & Hah & _ & _).
  unfold mergeTask, calculateRewards. simpl.
  rewrite Hcomp, Hat, Hah.
  destruct (cu_isCompleted v) as [[|]|], (isCompleted t) eqn:Hdone,
    (cu_actualHours v) as [n|];
    try destruct (truthyNumber n); simpl;
    try (exfalso; by apply Hguard);
    split_and!; try done; try (intros; split_and!; try done; eauto);
    eauto.
Qed.

Lemma handle_StoreInvariant (tasks : gmap string Task) (r : Request) :
  StoreInvariant tasks → StoreInvariant (handle' tasks r).
Proof.
  intros Hinv. destruct r as [newId now session req_body
                             |now session taskId req_body
                             |session taskId]; simpl.
  - unfold postTask.
    destruct (authenticated session) as [uid|]; [|done].
    destruct (parseCreate' req_body) as [v|]; [|done].
    destruct (insertTaskSchema_parse _) as [ins|]; [|done].
    simpl. intros key t Ht.
    destruct (decide (newId = key)) as [->|Hne].
    + rewrite lookup_insert_eq in Ht. injection Ht as <-.
      split_and!; simpl; try done.
    + rewrite lookup_insert_ne in Ht by done. by apply Hinv.
  - destruct (patchTask_cases parseFloat Number_toString Date_parse
                multipleOf tasks now session taskId req_body)
      as [(resp & -> & _)|(t & v & u & Ht & _ & _ & Hguard & Hu & ->)];
      [done|]. simpl.
    intros key t' Ht'.
    destruct (decide (taskId = key)) as [->|Hne].
    + rewrite lookup_insert_eq in Ht'. injection Ht' as <-.
      destruct (Hinv key t Ht) as (Hid & Hopen & Hclosed).
      destruct (patched_task_shape now t v u Hu Hguard)
        as (Hid' & _ & _ & _ & Hopen' & Hclosed' & _).
      split_and!.
      * by rewrite Hid'.
      * intros Hfalse. destruct (Hopen' Hfalse) as (Hwas & -> & -> & ->).
        by apply Hopen.
      * intros Htrue. destruct (Hclosed' Htrue) as (Hat & Hah & Hfresh).
        destruct (isCompleted t) eqn:Hdone; [|by apply Hfresh].
        destruct Hclosed as [? ?]; [done|]. split; [by apply Hat|by apply Hah].
    + rewrite lookup_insert_ne in Ht' by done. by apply Hinv.
  - unfold deleteTaskRoute, getTask, deleteTask.
    destruct (authenticated session) as [uid|]; [|done].
    destruct (tasks !! taskId) as [t|] eqn:Ht; [|done].
    destruct (bool_decide (userId t = uid)); simpl; [|done].
    intros key t' Ht'. apply lookup_delete_Some in Ht' as [_ Ht'].
    by apply Hinv.
Qed.

Lemma foldl_handle_StoreInvariant (requests : list Request)
    (tasks : gmap string Task) :
  StoreInvariant tasks → StoreInvariant (foldl handle' tasks requests).
Proof.
  revert tasks. induction requests as [|r requests IH]; intros tasks Hinv;
    simpl; [done|].
  apply IH. by apply handle_StoreInvariant.
Qed.

(** X6.  Whatever sequence of POST, PATCH and DELETE requests the server
    has answered since it started, every task it stores sits under its own
    id; an incomplete task has [xpReward = 0], [euReward = 0] and no
    [completedAt]; a completed task has a [completedAt] and
    [actualHours]. *)
Theorem serve_StoreInvariant (requests : list Request) (key : string)
    (t : Task) :
  serve' requests !! key = Some t → TaskInvariant key t.
Proof.
  revert key t. apply foldl_handle_StoreInvariant.
  intros key t Ht. by rewrite lookup_empty in Ht.
Qed.

(** X7.  Completion is one-way through the PATCH handler: whatever the
    request, a task that is stored as completed is still stored and
    completed afterwards, with the same two rewards. *)
Theorem patch_keeps_completed (tasks : gmap string Task) (now : Date)
    (session : option string) (taskId : string)
    (req_body : gmap string JSON) (key : string) (t : Task) :
  tasks !! key = Some t →
  isCompleted t = true →
  ∃ t', (patch' tasks now session taskId req_body).1 !! key = Some t'
    ∧ isCompleted t' = true
    ∧ xpReward t' = xpReward t ∧ euReward t' = euReward t.
Proof.
  intros Ht Hdone.
  destruct (patchTask_cases parseFloat Number_toString Date_parse
              multipleOf tasks now session taskId req_body)
    as [(resp & -> & _)|(t0 & v & u & Ht0 & _ & _ & Hguard & Hu & ->)];
    simpl.
  - by exists t.
  - destruct (decide (taskId = key)) as [->|Hne].
    + rewrite Ht in Ht0. injection Ht0 as <-.
      rewrite lookup_insert_eq. eexists. split; [done|].
      destruct (patched_task_shape now t v u Hu Hguard)
        as (_ & _ & _ & Hkept & _).
      by apply Hkept.
    + rewrite lookup_insert_ne by done. by exists t.
Qed.

(** X8.  Only the signed-in owner of a task can change or delete it: for
    any other caller the PATCH handler answers 401 or 404, the DELETE
    handler refuses, and neither touches the store. *)
Theorem only_owner_writes (tasks : gmap string Task) (now : Date)
    (session : option string) (taskId : string)
    (req_body : gmap string JSON) (t : Task) :
  tasks !! taskId = Some t →
  authenticated session ≠ Some (userId t) →
  (∃ resp, patch' tasks now session taskId req_body = (tasks, resp)
     ∧ (status resp = 401 ∨ status resp = 404)%nat)
  ∧ (∃ resp, deleteTaskRoute tasks session taskId
             = (tasks, DeleteRefused resp)
       ∧ (status resp = 401 ∨ status resp = 404)%nat).
Proof.
  intros Ht Hauth. unfold patchTask, deleteTaskRoute, getTask.
  destruct (authenticated session) as [uid|].
  - rewrite Ht.
    destruct (bool_decide (userId t = uid)) eqn:Huid; simpl.
    + apply bool_decide_eq_true in Huid. by subst.
    + split; eexists; (split; [done|simpl; tauto]).
  - split; eexists; (split; [done|simpl; tauto]).
Qed.

(** X9.  A PATCH changes at most the task it addresses, and of that task
    never the [id], the [userId] or the [createdAt]; for an id that is not
    stored it changes nothing. *)
Theorem patch_frame (tasks : gmap string Task) (now : Date)
    (session : option string) (taskId : string)
    (req_body : gmap string JSON) :
  (∀ key, key ≠ taskId →
     (patch' tasks now session taskId req_body).1 !! key = tasks !! key)
  ∧ (∀ t, tasks !! taskId = Some t →
       ∃ t', (patch' tasks now session taskId req_body).1 !! taskId = Some t'
         ∧ id t' = id t ∧ userId t' = userId t
         ∧ createdAt t' = createdAt t)
  ∧ (tasks !! taskId = None →
       (patch' tasks now session taskId req_body).1 = tasks).
Proof.
  destruct (patchTask_cases parseFloat Number_toString Date_parse
              multipleOf tasks now session taskId req_body)
    as [(resp & -> & _)|(t0 & v & u & Ht0 & _ & _ & Hguard & Hu & ->)];
    simpl.
  - split_and!; [done| |done]. intros t Ht. by exists t.
  - split_and!.
    + intros key Hne. by rewrite lookup_insert_ne.
    + intros t Ht. rewrite Ht in Ht0. injection Ht0 as <-.
      rewrite lookup_insert_eq. eexists. split; [done|].
      destruct (patched_task_shape now t v u Hu Hguard)
        as (? & ? & ? & _). done.
    + intros Hnone. congruence.
Qed.

(** X10.  The completion time is the server's: after a PATCH the
    [completedAt] of the addressed task is the stored one, or the time of
    the request, and the latter only when the body carries
    [isCompleted: true]. *)
Theorem completedAt_server_controlled (tasks : gmap string Task)
    (now : Date) (session : option string) (taskId : string)
    (req_body : gmap string JSON) (t t' : Task) :
  tasks !! taskId = Some t →
  (patch' tasks now session taskId req_body).1 !! taskId = Some t' →
  completedAt t' = completedAt t
  ∨ (completedAt t' = Some now
     ∧ req_body !! "isCompleted"%string = Some (JBool true)).
Proof.
  intros Ht Ht'.
  destruct (patchTask_cases parseFloat Number_toString Date_parse
              multipleOf tasks now session taskId req_body)
    as [(resp & Hp & _)|(t0 & v & u & Ht0 & _ & Hv & Hguard & Hu & Hp)];
    rewrite Hp in Ht'; simpl in Ht'.
  - left. congruence.
  - rewrite Ht in Ht0. injection Ht0 as <-.
    rewrite lookup_insert_eq in Ht'. injection Ht' as <-.
    destruct (patched_task_shape now t v u Hu Hguard)
      as (_ & _ & _ & _ & _ & _ & [Hsame|[Hnow Hcomp]]); [by left|right].
    split; [done|].
    destruct (parseUpdate_keys _ _ Hv) as (Hkey & _).
    unfold optionalKey in Hkey. rewrite Hcomp in Hkey.
    destruct (req_body !! "isCompleted"%string) as [[| | | |]|];
      simpl in Hkey; congruence.
Qed.


(** X11.  When the body that completes a task carries [actualHours], the
    two rewards are computed on those hours, as the handler writes them
    ([toString], then [parseFloat]), and from the stored priority and
    domain, even when the same body changes the priority or the domain. *)
Theorem supplied_hours_rewarded (tasks : gmap string Task) (now : Date)
    (session : option string) (taskId : string)
    (req_body : gmap string JSON) (t : Task) (n : float) :
  tasks !! taskId = Some t →
  isCompleted t = false →
  authenticated session = Some (userId t) →
  req_body !! "isCompleted"%string = Some (JBool true) →
  req_body !! "actualHours"%string = Some (JNum n) →
  truthyNumber n = true →
  Number_toString n ≠ ""%string →
  status (patch' tasks now session taskId req_body).2 = 200%nat →
  ∃ t' v,
    patch' tasks now session taskId req_body
    = (<[taskId := t']> tasks, mkResponse 200 (TaskBody t'))
    ∧ parseUpdate' req_body = Some v
    ∧ xpReward t'
      = calculateXPReward (priority t) (parseFloat (Number_toString n))
    ∧ euReward t'
      = calculateEUReward (domain t) (parseFloat (Number_toString n))
    ∧ actualHours t' = Some (Number_toString n)
    ∧ priority t' = default (priority t) (cu_priority v)
    ∧ domain t' = default (domain t) (cu_domain v).
Proof.
  intros Ht Hopen Hauth Hcomp Hhours Htruthy Hstr Hstatus.
  destruct (patchTask_cases parseFloat Number_toString Date_parse
              multipleOf tasks now session taskId req_body)
    as [(resp & Hp & Hrefused)
       |(t0 & v & u & Ht0 & _ & Hv & Hguard & Hu & Hp)];
    rewrite Hp in Hstatus |- *; simpl in Hstatus.
  { destruct Hrefused as [?|[?|?]]; congruence. }
  rewrite Ht in Ht0. injection Ht0 as <-.
  destruct (parseUpdate_keys _ _ Hv) as (Hkc & Hkh & _).
  unfold optionalKey in Hkc, Hkh. rewrite Hcomp in Hkc. rewrite Hhours in Hkh.
  simpl in Hkc. injection Hkc as Hkc.
  assert (cu_actualHours v = Some n) as Hn.
  { unfold z_number in Hkh.
    destruct (negb (is_nan n) && (0.1 <=? n)%float && (n <=? 100)%float
              && multipleOf n 0.1); simpl in Hkh; congruence. }
  destruct (serverFormat_parse _ _ _ Hu) as (Huc & _ & Huh & Hup & Hud).
  rewrite <- Hkc in Huc. rewrite Hn, Htruthy in Huh.
  eexists _, v. split; [done|]. split; [done|].
  unfold calculateRewards. rewrite Huc, Hopen, Huh. simpl.
  rewrite decide_False by done. simpl.
  rewrite Hup, Hud. done.
Qed.

(** X12.  The POST handler stores a task only when it answers 201, and
    then the task is stored under the fresh id, belongs to the signed-in
    caller whatever the body says, and carries the title and the domain of
    the body; every other task is left as it was. *)
Theorem post_creates_for_caller (tasks : gmap string Task) (newId : string)
    (now : Date) (session : option string) (req_body : gmap string JSON) :
  (status (post' tasks newId now session req_body).2 ≠ 201%nat →
   (post' tasks newId now session req_body).1 = tasks)
  ∧ (status (post' tasks newId now session req_body).2 = 201%nat →
     ∃ uid created,
       authenticated session = Some uid
       ∧ post' tasks newId now session req_body
         = (<[newId := created]> tasks, mkResponse 201 (TaskBody created))
       ∧ id created = newId ∧ userId created = uid
       ∧ createdAt created = now
       ∧ req_body !! "title"%string = Some (JStr (title created))
       ∧ req_body !! "domain"%string = Some (JStr (domain created))).
Proof.
  unfold postTask.
  destruct (authenticated session) as [uid|]; [|by split].
  destruct (parseCreate' req_body) as [v|] eqn:Hv; [|by split].
  destruct (insertTaskSchema_parse _) as [ins|] eqn:Hins; [|by split].
  simpl. split; [done|]. intros _.
  exists uid. eexists. split; [done|]. split; [done|]. simpl.
  unfold insertTaskSchema_parse in Hins. simpl in Hins.
  destruct (ct_dueDate v) as [s|];
    [destruct (truthyString s); [destruct (Date_parse s)|]|];
    simpl in Hins; try discriminate; injection Hins as <-; simpl;
    (split_and!; try done);
    unfold clientTaskSchema_parse in Hv;
    unfold requiredKey in Hv;
    destruct (req_body !! "title"%string) as [[| | |ttl|]|];
      simpl in Hv; try discriminate;
    repeat match type of Hv with
           | context [optionalKey ?sch ?bd ?k] =>
               destruct (optionalKey sch bd k); simpl in Hv;
               [|discriminate]
           end;
    destruct (req_body !! "domain"%string) as [[| | |dmn|]|];
      simpl in Hv; try discriminate;
    repeat match type of Hv with
           | context [optionalKey ?sch ?bd ?k] =>
               destruct (optionalKey sch bd k); simpl in Hv;
               [|discriminate]
           end;
    destruct (req_body !! "estimatedHours"%string ≫= _);
      simpl in Hv; try discriminate;
    repeat match type of Hv with
           | context [optionalKey ?sch ?bd ?k] =>
               destruct (optionalKey sch bd k); simpl in Hv;
               [|discriminate]
           end;
    by injection Hv as <-.
Qed.

(** X13.  The signed-in owner deletes a task with a 204: the task is gone,
    every other task is left as it was, and a PATCH to the deleted id finds
    nothing to change. *)
Theorem owner_deletes (tasks : gmap string Task) (session : option string)
    (taskId : string) (t : Task) :
  tasks !! taskId = Some t →
  authenticated session = Some (userId t) →
  deleteTaskRoute tasks session taskId = (delete taskId tasks, NoContent)
  ∧ getTask (delete taskId tasks) taskId = None
  ∧ (∀ key, key ≠ taskId →
       getTask (delete taskId tasks) key = getTask tasks key)
  ∧ (∀ now session' req_body,
       ∃ resp, patch' (delete taskId tasks) now session' taskId req_body
               = (delete taskId tasks, resp)
         ∧ (status resp = 401 ∨ status resp = 404)%nat).
Proof.
  intros Ht Hauth. unfold deleteTaskRoute, getTask, deleteTask.
  rewrite Hauth, Ht, !bool_decide_true by eauto. simpl.
  split_and!; [done|apply lookup_delete_eq| |].
  - intros key Hne. by apply lookup_delete_ne.
  - intros now session' req_body. unfold patchTask.
    rewrite lookup_delete_eq.
    destruct (authenticated session');
      eexists; (split; [done|simpl; tauto]).
Qed.

(** X14.  Hours that reach the store have passed the bounds of the client
    schema: when a PATCH is answered with 200, an [actualHours] of its body
    is a number between 0.1 and 100, and an [estimatedHours] a number
    between 0.5 and 24, neither NaN, each a multiple of its step. *)
Theorem accepted_hours_in_bounds (tasks : gmap string Task) (now : Date)
    (session : option string) (taskId : string)
    (req_body : gmap string JSON) :
  status (patch' tasks now session taskId req_body).2 = 200%nat →
  (∀ j, req_body !! "actualHours"%string = Some j →
     ∃ n, j = JNum n ∧ is_nan n = false
          ∧ (0.1 <=? n)%float = true ∧ (n <=? 100)%float = true
          ∧ multipleOf n 0.1 = true)
  ∧ (∀ j, req_body !! "estimatedHours"%string = Some j →
       ∃ n, j = JNum n ∧ is_nan n = false
            ∧ (0.5 <=? n)%float = true ∧ (n <=? 24)%float = true
            ∧ multipleOf n 0.5 = true).
Proof.
  intros Hstatus.
  destruct (patchTask_cases parseFloat Number_toString Date_parse
              multipleOf tasks now session taskId req_body)
    as [(resp & Hp & Hrefused)
       |(t0 & v & u & _ & _ & Hv & _ & _ & _)].
  { rewrite Hp in Hstatus. simpl in Hstatus.
    destruct Hrefused as [?|[?|?]]; congruence. }
  destruct (parseUpdate_keys _ _ Hv) as (_ & Hah & Heh).
  unfold optionalKey in Hah, Heh.
  split; intros j Hj; [rewrite Hj in Hah|rewrite Hj in Heh];
    simpl in *; unfold z_number in *;
    (destruct j as [| |n| |]; simpl in *; try discriminate);
    exists n;
    [destruct (is_nan n), (0.1 <=? n)%float, (n <=? 100)%float,
       (multipleOf n 0.1)
    |destruct (is_nan n), (0.5 <=? n)%float, (n <=? 24)%float,
       (multipleOf n 0.5)];
    simpl in *; try discriminate; done.
Qed.

End ServerFacts.

(** X15.  A priority or a domain that is neither a key of its table nor a
    name inherited from [Object.prototype] is rewarded with the default
    base 15 and the default multiplier 1.0. *)
Theorem reward_defaults (priority domain : string) (hours : float) :
  priority ∉ ["low"; "medium"; "high"; "urgent"]%string
             ++ Object_prototype_properties →
  domain ∉ ["academic"; "fitness"; "creative"; "social"; "maintenance"]%string
           ++ Object_prototype_properties →
  calculateXPReward priority hours = Math_round (15 * hours)%float
  ∧ calculateEUReward domain hours = Math_round ((hours * 1.0) * 10)%float.
Proof.
  intros Hp Hd. rewrite not_elem_of_app in Hp, Hd.
  destruct Hp as [Hp1 Hp2], Hd as [Hd1 Hd2].
  split; [by apply calculateXPReward_default
         |by apply calculateEUReward_default].
Qed.

(* ===================================================================== *)
(** * Properties of the day view *)
(* ===================================================================== *)

Section DayViewFacts.
Variable localOffset : Z → Z.
Variable dayStart dayEnd : Date.

Abbreviation dvHour := (getHours localOffset).
Abbreviation dvAllTasks := (dv_allTasks dayStart dayEnd).
Abbreviation dvTimedTasks := (dv_timedTasks localOffset dayStart dayEnd).
Abbreviation dvAllDayTasks := (dv_allDayTasks localOffset dayStart dayEnd).
Abbreviation dvTimedEvents := (dv_timedEvents dayStart dayEnd).
Abbreviation dvAllDayEvents := (dv_allDayEvents dayStart dayEnd).
Abbreviation dvPositioned :=
  (dv_positionedItems localOffset dayStart dayEnd).

(** With [||] between the two hour tests, every dated task is timed. *)
Lemma dv_isTimedTask_dated (t : Task) (d : Date) :
  dueDate t = Some d → dv_isTimedTask localOffset t.
Proof.
  intros Hd. unfold dv_isTimedTask. rewrite Hd.
  apply orb_True. right. apply bool_decide_spec.
  pose proof (getHours_range localOffset d). lia.
Qed.

Lemma dv_isAllDayTask_dated (t : Task) (d : Date) :
  dueDate t = Some d →
  dv_isAllDayTask localOffset t ↔ dvHour d < START_HOUR.
Proof.
  intros Hd. unfold dv_isAllDayTask. rewrite Hd.
  rewrite orb_True, !bool_decide_spec.
  pose proof (getHours_range localOffset d). lia.
Qed.

Lemma elem_of_dv_allTasks (tasks : list Task) (t : Task) :
  t ∈ dvAllTasks tasks
  ↔ t ∈ tasks ∧ (dueDate t = None
                 ∨ ∃ d, dueDate t = Some d ∧ dayStart ≤ d ≤ dayEnd).
Proof.
  unfold dv_allTasks. rewrite list_elem_of_filter. unfold isDayTask.
  destruct (dueDate t) as [d|].
  - rewrite andb_True, !bool_decide_spec. split.
    + intros [Hrange Hin]. split; [done|]. right. exists d. split; [done|lia].
    + intros [Hin [?|(d' & [= <-] & Hrange)]]; [done|]. split; [lia|done].
  - split; [intros [_ Hin]; split; [done|by left]|by intros [Hin _]].
Qed.

(** X16.  In the day view every task due within the displayed day gets a
    lane, whatever its hour, and it is listed in the all-day section as
    well exactly when it is due before 6:00; a task without a due date is
    in the all-day section of every day and never gets a lane. *)
Theorem day_view_task_split (tasks : list Task) (events : list DayEvent)
    (t : Task) :
  t ∈ tasks →
  (∀ d, dueDate t = Some d → dayStart ≤ d ≤ dayEnd →
     (∃ p, p ∈ dvPositioned tasks events ∧ item p = taskItem t)
     ∧ (t ∈ dvAllDayTasks tasks ↔ dvHour d < START_HOUR))
  ∧ (dueDate t = None →
     t ∈ dvAllDayTasks tasks ∧ t ∉ dvTimedTasks tasks).
Proof.
  intros Hin. split.
  - intros d Hd Hrange.
    assert (t ∈ dvAllTasks tasks) as Hall.
    { apply elem_of_dv_allTasks. split; [done|]. right. by exists d. }
    split.
    + apply elem_of_allocateTimed. unfold dv_timedItems.
      apply elem_of_app. right. apply list_elem_of_fmap_2.
      unfold dv_timedTasks. apply list_elem_of_filter.
      split; [by eapply dv_isTimedTask_dated|done].
    + unfold dv_allDayTasks. rewrite list_elem_of_filter.
      pose proof (dv_isAllDayTask_dated t d Hd). tauto.
  - intros Hnone.
    assert (t ∈ dvAllTasks tasks) as Hall.
    { apply elem_of_dv_allTasks. split; [done|by left]. }
    unfold dv_allDayTasks, dv_timedTasks. rewrite !list_elem_of_filter.
    unfold dv_isAllDayTask, dv_isTimedTask. rewrite Hnone. simpl.
    split; [done|]. by intros [? _].
Qed.

Lemma elem_of_dv_timedEvents (events : list DayEvent) (ev : DayEvent) :
  ev ∈ dvTimedEvents events
  ↔ ev ∈ events ∧ de_allDay ev = false
    ∧ de_startTime ev ≤ dayEnd ∧ dayStart ≤ de_endTime ev.
Proof.
  unfold dv_timedEvents, dv_dayEvents. rewrite !list_elem_of_filter.
  unfold intersectsDay.
  destruct (de_allDay ev); simpl.
  - rewrite orb_true_r. simpl. split; [by intros [? _]|by intros (_ & ? & _)].
  - rewrite orb_false_r, andb_True, !bool_decide_spec.
    simpl. intuition lia.
Qed.

(** X17.  In the day view an event flagged all-day is listed in the
    all-day section of every day, whatever its dates, and never gets a
    lane; an event that is not flagged gets a lane exactly when it starts
    no later than the end of the day and ends no earlier than its start. *)
Theorem day_view_event_split (tasks : list Task) (events : list DayEvent)
    (ev : DayEvent) :
  ev ∈ events →
  (de_allDay ev = true →
     ev ∈ dvAllDayEvents events ∧ ev ∉ dvTimedEvents events)
  ∧ (de_allDay ev = false →
     ((∃ p, p ∈ dvPositioned tasks events ∧ item p = dayEventItem ev)
      ↔ de_startTime ev ≤ dayEnd ∧ dayStart ≤ de_endTime ev)).
Proof.
  intros Hin. split.
  - intros Hflag. split.
    + unfold dv_allDayEvents, dv_dayEvents. rewrite !list_elem_of_filter.
      unfold intersectsDay. rewrite Hflag, orb_true_r. done.
    + rewrite elem_of_dv_timedEvents. intros (_ & ? & _). congruence.
  - intros Hflag. unfold dv_positionedItems.
    rewrite elem_of_allocateTimed. unfold dv_timedItems.
    rewrite elem_of_app, !list_elem_of_fmap. split.
    + intros [(ev' & Heq & Hev')|(t & Heq & _)]; [|discriminate].
      apply elem_of_dv_timedEvents in Hev' as (_ & _ & Hs & He).
      injection Heq as _ Hs' He'. rewrite Hs', He'. split; [done|lia].
    + intros [Hs He]. left. exists ev. split; [done|].
      by apply elem_of_dv_timedEvents.
Qed.
End DayViewFacts.

(** X18.  The hour labels of the timeline: for the hours 0 to 23 the label
    shows a number from 1 to 12 followed by AM before noon and PM from
    noon on, and no two hours share a label. *)
Theorem formatHour_labels (h : Z) :
  0 ≤ h ≤ 23 →
  (∃ n, 1 ≤ n ≤ 12
        ∧ formatHour h
          = (pretty n +:+ " " +:+ (if bool_decide (h < 12) then "AM" else "PM"))%string
        ∧ (n = h ∨ n = h - 12 ∨ n = h + 12))
  ∧ (∀ h', 0 ≤ h' ≤ 23 → formatHour h' = formatHour h → h' = h).
Proof.
  intros Hh.
  assert (h ∈ seqZ 0 24) as Hin by (apply elem_of_seqZ; lia).
  split.
  - unfold formatHour.
    destruct (decide (h > 12)) as [Hgt|Hle].
    { exists (h - 12).
      rewrite (bool_decide_true (h >= 12)), (bool_decide_true (h > 12)),
        (bool_decide_false (h < 12)) by lia.
      split; [lia|]. split; [done|lia]. }
    rewrite (bool_decide_false (h > 12)) by lia.
    destruct (decide (h = 12)) as [->|Hne].
    { exists 12. split; [lia|]. split; [done|lia]. }
    rewrite (bool_decide_false (h >= 12)), (bool_decide_true (h < 12)) by lia.
    destruct (decide (h = 0)) as [->|Hpos].
    { exists 12. split; [lia|]. split; [done|lia]. }
    exists h. rewrite (bool_decide_false (h = 0)) by lia.
    split; [lia|]. split; [done|lia].
  - intros h' Hh' Heq.
    assert (h' ∈ seqZ 0 24) as Hin' by (apply elem_of_seqZ; lia).
    apply list_elem_of_lookup in Hin as [i Hi], Hin' as [i' Hi'].
    assert (NoDup (formatHour <$> seqZ 0 24)) as Hnodup.
    { apply (bool_decide_unpack _). by vm_compute. }
    assert (i' = i) as ->; [|congruence].
    apply (NoDup_lookup _ i' i (formatHour h) Hnodup);
      rewrite list_lookup_fmap; [rewrite Hi'|rewrite Hi]; simpl;
      by rewrite ?Heq.
Qed.

(* ===================================================================== *)
(** * The added properties on the sample data *)
(* ===================================================================== *)

(** A task is created, then completed. *)
Lemma serve_StoreInvariant_witness :
  ∃ t,
    serve_sample
      [ POST_task "t9" 1735900000000 (Some "bruce"%string)
          {[ "title"%string := JStr "Patrol";
             "domain"%string := JStr "fitness";
             "estimatedHours"%string := JNum 2 ]};
        PATCH_task 1735990000000 (Some "bruce"%string) "t9"
          {[ "isCompleted"%string := JBool true ]} ] !! "t9"%string
    = Some t
    ∧ TaskInvariant "t9" t.
Proof.
  eexists. split; [vm_compute; reflexivity|].
  apply (serve_StoreInvariant parseFloat_decimal Number_toString_tenths
           Date_parse_sample multipleOf_tenths
           [ POST_task "t9" 1735900000000 (Some "bruce"%string)
               {[ "title"%string := JStr "Patrol";
                  "domain"%string := JStr "fitness";
                  "estimatedHours"%string := JNum 2 ]};
             PATCH_task 1735990000000 (Some "bruce"%string) "t9"
               {[ "isCompleted"%string := JBool true ]} ]).
  vm_compute. reflexivity.
Defined.

(** The owner tries to reopen the completed sample task and to zero its
    rewards in one request. *)
Lemma patch_keeps_completed_witness :
  ∃ t', (patchTask_sample sampleDoneStore 1735990000000
           (Some "bruce"%string) "t1"
           {[ "isCompleted"%string := JBool false;
              "xpReward"%string := JNum 0 ]}).1 !! "t1"%string = Some t'
    ∧ isCompleted t' = true
    ∧ xpReward t' = xpReward sampleDone ∧ euReward t' = euReward sampleDone.
Proof.
  apply (patch_keeps_completed parseFloat_decimal Number_toString_tenths
           Date_parse_sample multipleOf_tenths sampleDoneStore);
    reflexivity.
Defined.

Lemma only_owner_writes_witness :
  (∃ resp, patchTask_sample sampleStore 1735990000000
             (Some "joker"%string) "t1"
             {[ "title"%string := JStr "Ha" ]} = (sampleStore, resp)
     ∧ (status resp = 401 ∨ status resp = 404)%nat)
  ∧ (∃ resp, deleteTaskRoute sampleStore (Some "joker"%string) "t1"
             = (sampleStore, DeleteRefused resp)
       ∧ (status resp = 401 ∨ status resp = 404)%nat).
Proof.
  apply (only_owner_writes parseFloat_decimal Number_toString_tenths
           Date_parse_sample multipleOf_tenths sampleStore 1735990000000
           (Some "joker"%string) "t1" {[ "title"%string := JStr "Ha" ]}
           sampleTask).
  - reflexivity.
  - vm_compute. discriminate.
Defined.

(** Completing the completed sample task again moves its [completedAt] to
    the time of the second request. *)
Lemma completedAt_server_controlled_witness :
  ∃ t', (patchTask_sample sampleDoneStore 1735990000000
           (Some "bruce"%string) "t1"
           {[ "isCompleted"%string := JBool true ]}).1 !! "t1"%string
        = Some t'
    ∧ completedAt t' = Some 1735990000000
    ∧ (completedAt t' = completedAt sampleDone
       ∨ (completedAt t' = Some 1735990000000
          ∧ ({[ "isCompleted"%string := JBool true ]} : gmap string JSON)
              !! "isCompleted"%string = Some (JBool true))).
Proof.
  eexists. split; [vm_compute; reflexivity|]. split; [reflexivity|].
  apply (completedAt_server_controlled parseFloat_decimal
           Number_toString_tenths Date_parse_sample multipleOf_tenths
           sampleDoneStore 1735990000000 (Some "bruce"%string) "t1"
           {[ "isCompleted"%string := JBool true ]} sampleDone).
  - reflexivity.
  - vm_compute. reflexivity.
Defined.

(** The sample task completed with three actual hours, in a request that
    also lowers its priority: 75 XP, on the stored high priority. *)
Lemma supplied_hours_rewarded_witness :
  ∃ t', patchTask_sample sampleStore 1735990000000 (Some "bruce"%string)
          "t1"
          {[ "isCompleted"%string := JBool true;
             "actualHours"%string := JNum 3;
             "priority"%string := JStr "low" ]}
        = (<["t1"%string := t']> sampleStore, mkResponse 200 (TaskBody t'))
    ∧ xpReward t' = 75%float ∧ euReward t' = 75%float
    ∧ actualHours t' = Some "3"%string.
Proof.
  destruct (supplied_hours_rewarded parseFloat_decimal
              Number_toString_tenths Date_parse_sample multipleOf_tenths
              sampleStore 1735990000000 (Some "bruce"%string) "t1"
              {[ "isCompleted"%string := JBool true;
                 "actualHours"%string := JNum 3;
                 "priority"%string := JStr "low" ]} sampleTask 3%float)
    as (t' & v & Hp & _ & Hxp & Heu & Hah & _);
    try (vm_compute; reflexivity).
  { vm_compute. discriminate. }
  exists t'. split; [exact Hp|]. rewrite Hxp, Heu, Hah.
  vm_compute. split_and!; reflexivity.
Defined.

Lemma owner_deletes_witness :
  deleteTaskRoute sampleStore (Some "bruce"%string) "t1"
  = (delete "t1"%string sampleStore, NoContent).
Proof.
  destruct (owner_deletes parseFloat_decimal Number_toString_tenths
              Date_parse_sample multipleOf_tenths sampleStore
              (Some "bruce"%string) "t1" sampleTask) as [Hdel _];
    [reflexivity|reflexivity|exact Hdel].
Defined.

Lemma accepted_hours_in_bounds_witness :
  ∃ n, JNum 3 = JNum n ∧ is_nan n = false
       ∧ (0.1 <=? n)%float = true ∧ (n <=? 100)%float = true
       ∧ multipleOf_tenths n 0.1 = true.
Proof.
  destruct (accepted_hours_in_bounds parseFloat_decimal
              Number_toString_tenths Date_parse_sample multipleOf_tenths
              sampleStore 1735990000000 (Some "bruce"%string) "t1"
              {[ "isCompleted"%string := JBool true;
                 "actualHours"%string := JNum 3 ]}) as [Hactual _].
  - vm_compute. reflexivity.
  - apply (Hactual (JNum 3)). vm_compute. reflexivity.
Defined.

(** Hours beyond the bound are refused, and nothing is stored. *)
Example patch_hours_out_of_bounds :
  patchTask_sample sampleStore 1735990000000 (Some "bruce"%string) "t1"
    {[ "isCompleted"%string := JBool true;
       "actualHours"%string := JNum 1000 ]}
  = (sampleStore, errorResponse 400 "Invalid update data").
Proof. vm_compute. reflexivity. Qed.

Lemma reward_defaults_witness :
  calculateXPReward "someday" 2 = Math_round (15 * 2)%float
  ∧ calculateEUReward "errands" 2 = Math_round ((2 * 1.0) * 10)%float.
Proof.
  apply (reward_defaults "someday" "errands" 2);
    apply (bool_decide_unpack _); by vm_compute.
Defined.

(** The first of January 2025, seen from a browser on UTC. *)
Lemma day_view_task_split_witness :
  (∃ p, p ∈ dv_positionedItems (λ _, 0) 1735689600000 1735775999999
              [earlyTask; sampleTask] []
        ∧ item p = taskItem earlyTask)
  ∧ (earlyTask ∈ dv_allDayTasks (λ _, 0) 1735689600000 1735775999999
                   [earlyTask; sampleTask]
     ↔ getHours (λ _, 0) 1735700400000 < START_HOUR).
Proof.
  destruct (day_view_task_split (λ _, 0) 1735689600000 1735775999999
              [earlyTask; sampleTask] [] earlyTask) as [Hdated _].
  - apply list_elem_of_here.
  - apply (Hdated 1735700400000); [reflexivity|lia].
Defined.

Lemma day_view_event_split_witness :
  galaEvent ∈ dv_allDayEvents 1735689600000 1735775999999 [galaEvent]
  ∧ (galaEvent ∉ dv_timedEvents 1735689600000 1735775999999 [galaEvent]).
Proof.
  destruct (day_view_event_split (λ _, 0) 1735689600000 1735775999999
              [] [galaEvent] galaEvent) as [Hflagged _].
  - apply list_elem_of_here.
  - apply Hflagged. reflexivity.
Defined.

Lemma formatHour_labels_witness :
  (∃ n, 1 ≤ n ≤ 12
        ∧ formatHour 12
          = (pretty n +:+ " " +:+ (if bool_decide (12 < 12) then "AM" else "PM"))%string
        ∧ (n = 12 ∨ n = 12 - 12 ∨ n = 12 + 12))
  ∧ (∃ n, formatHour 0 = (pretty n +:+ " AM")%string ∧ n = 12).
Proof.
  destruct (formatHour_labels 12) as [Hnoon _]; [lia|].
  split; [exact Hnoon|]. exists 12. split; reflexivity.
Defined.
